(** * Conway's Game of Life: the simulation engine of [src/game_of_life.py]

    A shallow embedding of the [GameOfLife] class and of the pattern
    catalog [PATTERNS], followed by the properties of the engine.

    Python integers are unbounded, so coordinates, dimensions and the
    generation counter are [Z].  The alive set is a Python [set] of
    pairs, modelled as a [gset (Z * Z)].  Methods act on [self] and on the
    process-wide random generator, so each of them is a computation in a
    small state monad over the pair of both. *)

From Stdlib Require Import ZArith QArith Ascii String List.
From stdpp Require Import base gmap sets list strings.

#[local] Set Warnings "-clear-no-such-hyp".
Local Open Scope Z_scope.

(** ** Data model *)

(** [Cell = Tuple[int, int]]: a (row, col) coordinate. *)
Definition Cell : Type := Z * Z.

(** The attributes set by [GameOfLife.__init__]. *)
Record GameOfLife : Type := mkGameOfLife {
  width : Z;
  height : Z;
  alive_cells : gset (Z * Z);
  generation : Z
}.

(** Python floats, as far as [<] can tell them apart: a finite float is
    the rational it denotes (so [-0.0] and [0.0] coincide, as they do
    under [<]), and the three special values are kept apart. *)
Inductive pyfloat : Type :=
| Finite (q : Q)
| PosInf
| NegInf
| NaN.

(** [a < b] on floats (IEEE 754: every comparison with NaN is false). *)
Definition float_lt (a b : pyfloat) : bool :=
  match a, b with
  | NaN, _ | _, NaN => false
  | Finite x, Finite y => negb (Qle_bool y x)
  | Finite _, PosInf => true
  | Finite _, NegInf => false
  | PosInf, _ => false
  | NegInf, NegInf => false
  | NegInf, _ => true
  end.

(** What a method can read and write: the object and the state of the
    [random] module, given as the sequence of values that the next calls
    of [random.random()] return. *)
Record World : Type := mkWorld {
  self : GameOfLife;
  rand : nat -> pyfloat
}.

(** ** The state monad of the methods *)

Definition M (A : Type) : Type := World -> A * World.

Definition ret {A : Type} (a : A) : M A := fun w => (a, w).

Definition bind {A B : Type} (m : M A) (k : A -> M B) : M B :=
  fun w => k (m w).1 (m w).2.

Declare Scope gol_scope.
Delimit Scope gol_scope with gol.
Notation "x <- m ;; k" := (bind m (fun x => k))
  (at level 100, m at next level, right associativity) : gol_scope.
Notation "m ;;; k" := (bind m (fun _ => k))
  (at level 100, right associativity) : gol_scope.
Local Open Scope gol_scope.

(** The value and the final state of a computation. *)
Definition eval {A : Type} (m : M A) (w : World) : A := (m w).1.
Definition exec {A : Type} (m : M A) (w : World) : World := (m w).2.

(** Attribute reads and writes on [self]. *)
Definition get_width : M Z := fun w => (width (self w), w).
Definition get_height : M Z := fun w => (height (self w), w).
Definition get_alive_cells : M (gset (Z * Z)) :=
  fun w => (alive_cells (self w), w).
Definition get_generation : M Z := fun w => (generation (self w), w).

Definition set_alive_cells (s : gset (Z * Z)) : M unit :=
  fun w =>
    (tt, mkWorld (mkGameOfLife (width (self w)) (height (self w)) s
                               (generation (self w)))
                 (rand w)).

Definition set_generation (g : Z) : M unit :=
  fun w =>
    (tt, mkWorld (mkGameOfLife (width (self w)) (height (self w))
                               (alive_cells (self w)) g)
                 (rand w)).

(** [random.random()]: the next value of the generator, which advances. *)
Definition random_random : M pyfloat :=
  fun w => (rand w 0%nat, mkWorld (self w) (fun k => rand w (S k))).

(** [for x in l: body], where the body has no local variable to update. *)
Fixpoint for_each {A : Type} (l : list A) (body : A -> M unit) : M unit :=
  match l with
  | [] => ret tt
  | x :: l' => body x ;;; for_each l' body
  end.

(** [for x in l: acc = body(acc, x)]: a loop that updates a local
    variable. *)
Fixpoint for_acc {A B : Type} (l : list A) (body : B -> A -> M B) (acc : B)
  : M B :=
  match l with
  | [] => ret acc
  | x :: l' => acc' <- body acc x ;; for_acc l' body acc'
  end.

(** [range(n)]: empty when [n <= 0]. *)
Definition range (n : Z) : list Z := Z.of_nat <$> seq 0 (Z.to_nat n).

(** [enumerate(l)]. *)
Definition enumerate {A : Type} (l : list A) : list (Z * A) :=
  imap (fun i x => (Z.of_nat i, x)) l.

(** ** The methods of [GameOfLife] *)

(** [GameOfLife(width, height)], in a process whose generator is [r]. *)
Definition init (w h : Z) (r : nat -> pyfloat) : World :=
  mkWorld (mkGameOfLife w h ∅ 0) r.

Definition add_cell (row col : Z) : M unit :=
  s <- get_alive_cells ;;
  set_alive_cells ({[ (row, col) ]} ∪ s).

Definition remove_cell (row col : Z) : M unit :=
  s <- get_alive_cells ;;
  set_alive_cells (s ∖ {[ (row, col) ]}).

Definition is_alive (row col : Z) : M bool :=
  s <- get_alive_cells ;;
  ret (bool_decide ((row, col) ∈ s)).

(** The two loops of [count_neighbors] run over [[-1, 0, 1]]. *)
Definition offsets : list Z := [-1; 0; 1].

Definition count_neighbors (row col : Z) : M Z :=
  for_acc offsets (fun count dr =>
    for_acc offsets (fun count dc =>
      if (dr =? 0) && (dc =? 0) then ret count
      else
        s <- get_alive_cells ;;
        if bool_decide ((row + dr, col + dc) ∈ s)
        then ret (count + 1)
        else ret count) count) 0.

(** The first loop of [step]: the alive cells and their neighbours. *)
Definition cells_to_check (alive : gset (Z * Z)) : gset (Z * Z) :=
  foldl (fun acc cell =>
    foldl (fun acc dr =>
      foldl (fun acc dc => {[ (cell.1 + dr, cell.2 + dc) ]} ∪ acc)
            acc offsets) acc offsets) ∅ (elements alive).

Definition step : M unit :=
  s <- get_alive_cells ;;
  new_alive <- for_acc (elements (cells_to_check s)) (fun new_alive cell =>
    neighbors <- count_neighbors cell.1 cell.2 ;;
    a <- is_alive cell.1 cell.2 ;;
    if a then
      if (neighbors =? 2) || (neighbors =? 3)
      then ret ({[ cell ]} ∪ new_alive)
      else ret new_alive
    else
      if neighbors =? 3
      then ret ({[ cell ]} ∪ new_alive)
      else ret new_alive) ∅ ;;
  set_alive_cells new_alive ;;;
  g <- get_generation ;;
  set_generation (g + 1).

Definition clear : M unit :=
  set_alive_cells ∅ ;;;
  set_generation 0.

Definition randomize (density : pyfloat) : M unit :=
  clear ;;;
  h <- get_height ;;
  for_each (range h) (fun row =>
    w <- get_width ;;
    for_each (range w) (fun col =>
      x <- random_random ;;
      if float_lt x density then add_cell row col else ret tt)).

(** The markers that [add_pattern] takes for an alive cell. *)
Definition is_alive_marker (char : ascii) : bool :=
  (Ascii.eqb char "O" || Ascii.eqb char "#" || Ascii.eqb char "*")%bool.

(** A row of a pattern is a Python [str]; its characters are taken as the
    characters of a [string], which is what they are for the rows of the
    catalog and for every row of ASCII characters. *)
Definition add_pattern (pattern : list string) (offset_row offset_col : Z)
  : M unit :=
  for_each (enumerate pattern) (fun '(r, line) =>
    for_each (enumerate (list_ascii_of_string line)) (fun '(c, char) =>
      if is_alive_marker char
      then add_cell (r + offset_row) (c + offset_col)
      else ret tt)).

Definition population : M Z :=
  s <- get_alive_cells ;;
  ret (Z.of_nat (size s)).

(** ** The pattern catalog *)

Definition PATTERNS : list (string * list string) := [
  ("glider",
   [".O.";
    "..O";
    "OOO"]);
  ("blinker",
   ["OOO"]);
  ("toad",
   [".OOO";
    "OOO."]);
  ("beacon",
   ["OO..";
    "OO..";
    "..OO";
    "..OO"]);
  ("pulsar",
   ["..OOO...OOO..";
    ".............";
    "O....O.O....O";
    "O....O.O....O";
    "O....O.O....O";
    "..OOO...OOO..";
    ".............";
    "..OOO...OOO..";
    "O....O.O....O";
    "O....O.O....O";
    "O....O.O....O";
    ".............";
    "..OOO...OOO.."]);
  ("glider_gun",
   ["........................O...........";
    "......................O.O...........";
    "............OO......OO............OO";
    "...........O...O....OO............OO";
    "OO........O.....O...OO..............";
    "OO........O...O.OO....O.O...........";
    "..........O.....O.......O...........";
    "...........O...O....................";
    "............OO......................"]);
  ("lightweight_spaceship",
   [".OOOO";
    "O...O";
    "....O";
    "O..O."]);
  ("r_pentomino",
   [".OO";
    "OO.";
    ".O."]);
  ("diehard",
   ["......O.";
    "OO......";
    ".O...OOO"]);
  ("acorn",
   [".O.....";
    "...O...";
    "OO..OOO"]);
  ("block",
   ["OO";
    "OO"]);
  ("beehive",
   [".OO.";
    "O..O";
    ".OO."]);
  ("loaf",
   [".OO.";
    "O..O";
    ".O.O";
    "..O."])
]%string.

(** [PATTERNS[name]], for a name of the catalog. *)
Fixpoint pattern_of (name : string) (catalog : list (string * list string))
  : option (list string) :=
  match catalog with
  | [] => None
  | (k, v) :: rest => if String.eqb k name then Some v else pattern_of name rest
  end.

(** [step] called [n] times in a row. *)
Fixpoint steps (n : nat) : M unit :=
  match n with
  | O => ret tt
  | S n' => step ;;; steps n'
  end.

(** ** Notions used to state and prove the properties *)

(** The world with another alive set. *)
Definition with_alive (s : gset (Z * Z)) (w : World) : World :=
  exec (set_alive_cells s) w.

(** The eight offsets [(dr, dc)] other than [(0, 0)], in loop order. *)
Definition neighbour_offsets : list (Z * Z) :=
  [(-1, -1); (-1, 0); (-1, 1); (0, -1); (0, 1); (1, -1); (1, 0); (1, 1)].

(** The eight cells around [(row, col)]. *)
Definition neighbour_cells (row col : Z) : list (Z * Z) :=
  (λ d, (row + d.1, col + d.2)) <$> neighbour_offsets.

(** How many cells of a list are in a set. *)
Definition count_in (s : gset (Z * Z)) (l : list (Z * Z)) : Z :=
  Z.of_nat (length (filter (λ c, c ∈ s) l)).

(** The value of [count_neighbors], as a function of the alive set. *)
Definition neighbor_count (s : gset (Z * Z)) (row col : Z) : Z :=
  foldl (fun count dr =>
    foldl (fun count dc =>
      if (dr =? 0) && (dc =? 0) then count
      else if bool_decide ((row + dr, col + dc) ∈ s) then count + 1
           else count) count offsets) 0 offsets.

(** [c] is [a] or one of the eight cells around it. *)
Definition within_one (a c : Z * Z) : Prop :=
  (-1 ≤ c.1 - a.1 ≤ 1) ∧ (-1 ≤ c.2 - a.2 ≤ 1).

(** The test that the second loop of [step] applies to a candidate. *)
Definition lives_on (s : gset (Z * Z)) (cell : Z * Z) : bool :=
  let neighbors := neighbor_count s cell.1 cell.2 in
  if bool_decide ((cell.1, cell.2) ∈ s)
  then (neighbors =? 2) || (neighbors =? 3)
  else neighbors =? 3.

(** The alive set that [step] installs. *)
Definition next_alive (s : gset (Z * Z)) : gset (Z * Z) :=
  foldl (fun new_alive cell =>
           if lives_on s cell then {[ cell ]} ∪ new_alive else new_alive)
        ∅ (elements (cells_to_check s)).

(** The set [s] moved by the vector [d]. *)
Definition translate (d : Z * Z) (s : gset (Z * Z)) : gset (Z * Z) :=
  set_map (λ c : Z * Z, (c.1 + d.1, c.2 + d.2)) s.

(** [m] adds the cells of [cells] to the alive set and does nothing else. *)
Definition adds_cells (m : M unit) (cells : gset (Z * Z)) : Prop :=
  ∀ w, m w = (tt, with_alive (cells ∪ alive_cells (self w)) w).

(** The cells that [add_pattern] adds for one row and for the pattern. *)
Definition row_cells (offset_row offset_col : Z) (rl : Z * string)
  : gset (Z * Z) :=
  ⋃ ((λ cc : Z * ascii,
        if is_alive_marker cc.2
        then {[ (rl.1 + offset_row, cc.1 + offset_col) ]} else ∅)
     <$> enumerate (list_ascii_of_string rl.2)).

Definition pattern_cells (pattern : list string) (offset_row offset_col : Z)
  : gset (Z * Z) :=
  ⋃ (row_cells offset_row offset_col <$> enumerate pattern).

(** What [random.random()] promises: a finite float in [[0, 1)]. *)
Definition in_unit_interval (x : pyfloat) : Prop :=
  match x with
  | Finite q => (0 <= q)%Q ∧ (q < 1)%Q
  | _ => False
  end.

(** Every value that the generator of [w] will return is in [[0, 1)]. *)
Definition unit_rand (w : World) : Prop := ∀ k, in_unit_interval (rand w k).

(** The body of the inner loop of [randomize]. *)
Definition fill_cell (density : pyfloat) (row col : Z) : M unit :=
  x <- random_random ;;
  if float_lt x density then add_cell row col else ret tt.

(** The cells of the rows [rows], restricted to the columns [cols]. *)
Definition grid (rows cols : list Z) : list (Z * Z) :=
  rows ≫= (λ row, pair row <$> cols).

(** The number of alive cells among the eight neighbours of a cell. *)
Definition live_neighbours (s : gset (Z * Z)) (cell : Z * Z) : Z :=
  count_in s (neighbour_cells cell.1 cell.2).

(** The rule of the game as the docstring of the module states it, for a
    cell anywhere on the infinite grid: a live cell with 2 or 3 live
    neighbours survives, a dead cell with exactly 3 live neighbours becomes
    alive, and every other cell is dead in the next generation. *)
Definition conway_alive_next (s : gset (Z * Z)) (cell : Z * Z) : Prop :=
  (cell ∈ s ∧ (live_neighbours s cell = 2 ∨ live_neighbours s cell = 3))
  ∨ ((cell ∉ s) ∧ live_neighbours s cell = 3).

(** The rows of [PATTERNS["glider"]]. *)
Definition glider : list string := [".O."; "..O"; "OOO"]%string.

(** The number of alive markers in a row and in a pattern. *)
Definition row_markers (line : string) : nat :=
  length (filter (λ char, is_alive_marker char = true)
                 (list_ascii_of_string line)).

Definition pattern_markers (pattern : list string) : nat :=
  sum_list_with row_markers pattern.

(** Densities at most 0 and at least 1, NaN being neither. *)
Definition at_most_zero (density : pyfloat) : Prop :=
  match density with
  | Finite q => (q <= 0)%Q
  | NegInf => True
  | _ => False
  end.

Definition at_least_one (density : pyfloat) : Prop :=
  match density with
  | Finite q => (1 <= q)%Q
  | PosInf => True
  | _ => False
  end.

(** ** [game_to_array] of [visualize_game_of_life.py] *)

(** The exceptions that NumPy and the built-ins raise in [game_to_array]. *)
Inductive exception : Type :=
| ValueError
| IndexError.

(** A call returns a value or raises an exception. *)
Inductive outcome (A : Type) : Type :=
| Returns (a : A)
| Raises (e : exception).
Arguments Returns {A} a.
Arguments Raises {A} e.

Definition outcome_bind {A B : Type} (m : outcome A) (k : A -> outcome B)
  : outcome B :=
  match m with
  | Returns a => k a
  | Raises e => Raises e
  end.

Declare Scope outcome_scope.
Delimit Scope outcome_scope with out.
Notation "x <- m ;; k" := (outcome_bind m (fun x => k))
  (at level 100, m at next level, right associativity) : outcome_scope.

(** [for x in l: acc = body(acc, x)], where the body may raise. *)
Fixpoint for_raising {A B : Type} (l : list A) (body : B -> A -> outcome B)
    (acc : B) : outcome B :=
  match l with
  | [] => Returns acc
  | x :: l' => outcome_bind (body acc x) (for_raising l' body)
  end.

(** A two-dimensional array of floats: its shape and its rows. *)
Record ndarray : Type := mk_ndarray {
  shape : Z * Z;
  data : list (list pyfloat)
}.

(** The largest size in bytes that NumPy accepts for an array: the largest
    value of its index type, [2 ^ 63 - 1] on a 64-bit platform. *)
Definition np_max_size : Z := 9223372036854775807.

(** The size that NumPy checks against that limit for an array of floats
    of 8 bytes: a dimension of 0 counts as 1 in this check. *)
Definition np_checked_size (h w : Z) : Z := 8 * Z.max h 1 * Z.max w 1.

(** [np.zeros((h, w))]: a negative dimension is a [ValueError], and so is
    a size past the limit.  Below the limit the machine is taken to have
    the memory for the array: no [MemoryError] is modelled. *)
Definition np_zeros (h w : Z) : outcome ndarray :=
  if (h <? 0) || (w <? 0) then Raises ValueError
  else if np_max_size <? np_checked_size h w then Raises ValueError
  else Returns (mk_ndarray (h, w)
                  (replicate (Z.to_nat h) (replicate (Z.to_nat w) (Finite 0)))).

(** The position that the index [i] denotes on an axis of length [n]: a
    negative index counts from the end, and an index outside
    [-n .. n - 1] is an [IndexError]. *)
Definition np_index (n i : Z) : outcome nat :=
  let i' := if i <? 0 then i + n else i in
  if (i' <? 0) || (n <=? i') then Raises IndexError
  else Returns (Z.to_nat i').

(** [arr[i, j] = v]. *)
Definition np_setitem (arr : ndarray) (i j : Z) (v : pyfloat)
  : outcome ndarray :=
  (i' <- np_index (shape arr).1 i ;;
   j' <- np_index (shape arr).2 j ;;
   Returns (mk_ndarray (shape arr)
              (alter (λ row, <[j' := v]> row) i' (data arr))))%out.

(** [min(l)] and [max(l)]: a [ValueError] on the empty list. *)
Definition py_min (l : list Z) : outcome Z :=
  match l with
  | [] => Raises ValueError
  | x :: l' => Returns (foldl Z.min x l')
  end.

Definition py_max (l : list Z) : outcome Z :=
  match l with
  | [] => Raises ValueError
  | x :: l' => Returns (foldl Z.max x l')
  end.

Definition game_to_array (game : GameOfLife) (padding : Z) : outcome ndarray :=
  if bool_decide (alive_cells game = ∅) then np_zeros 10 10
  else
    let rows := fst <$> elements (alive_cells game) in
    let cols := snd <$> elements (alive_cells game) in
    (min_r <- py_min rows ;;
     max_r <- py_max rows ;;
     min_c <- py_min cols ;;
     max_c <- py_max cols ;;
     let height := max_r - min_r + 1 + 2 * padding in
     let width := max_c - min_c + 1 + 2 * padding in
     arr <- np_zeros height width ;;
     for_raising (elements (alive_cells game))
       (fun arr cell =>
          np_setitem arr (cell.1 - min_r + padding) (cell.2 - min_c + padding)
                     (Finite 1))
       arr)%out.

(** The entry of an array at row [i] and column [j], if there is one. *)
Definition entry (arr : ndarray) (i j : nat) : option pyfloat :=
  data arr !! i ≫= (λ row, row !! j).

(** An array whose rows agree with its shape [(h, w)]. *)
Definition well_shaped (arr : ndarray) (h w : Z) : Prop :=
  shape arr = (h, w) ∧ 0 ≤ h ∧ 0 ≤ w
  ∧ length (data arr) = Z.to_nat h
  ∧ Forall (λ row, length row = Z.to_nat w) (data arr).

(** The smallest rectangle of rows [min_r .. max_r] and columns
    [min_c .. max_c] that holds the cells of [s]. *)
Definition bounding_box (s : gset (Z * Z)) (min_r max_r min_c max_c : Z)
  : Prop :=
  (∀ c, c ∈ s → min_r ≤ c.1 ≤ max_r ∧ min_c ≤ c.2 ≤ max_c)
  ∧ (∃ c, c ∈ s ∧ c.1 = min_r) ∧ (∃ c, c ∈ s ∧ c.1 = max_r)
  ∧ (∃ c, c ∈ s ∧ c.2 = min_c) ∧ (∃ c, c ∈ s ∧ c.2 = max_c).

(** ** The pattern branch of [main] in [cli.py] *)

(** [len(pattern)]. *)
Definition pattern_height (pattern : list string) : Z :=
  Z.of_nat (length pattern).

(** [max(len(row) for row in pattern) if pattern else 0]. *)
Definition pattern_width (pattern : list string) : Z :=
  match pattern with
  | [] => 0
  | row :: rest =>
      foldl Z.max (Z.of_nat (String.length row))
            ((λ row, Z.of_nat (String.length row)) <$> rest)
  end.

(** [max(0, (size - pattern_size) // 2)]. *)
Definition center_offset (size pattern_size : Z) : Z :=
  Z.max 0 ((size - pattern_size) / 2).

(** The branch [elif args.pattern:] of [main], which centres the pattern
    on the engine made from [args.width] and [args.height]. *)
Definition main_pattern (args_width args_height : Z) (pattern : list string)
  : M unit :=
  let offset_row := center_offset args_height (pattern_height pattern) in
  let offset_col := center_offset args_width (pattern_width pattern) in
  add_pattern pattern offset_row offset_col.

(** ** Reasoning about computations *)

Section monad.
Context {A B : Type}.

Lemma eval_bind (m : M A) (k : A -> M B) (w : World) :
  eval (bind m k) w = eval (k (eval m w)) (exec m w).
Proof. reflexivity. Qed.

Lemma exec_bind (m : M A) (k : A -> M B) (w : World) :
  exec (bind m k) w = exec (k (eval m w)) (exec m w).
Proof. reflexivity. Qed.

(** A loop whose body only reads the state is a fold over the list. *)
Lemma for_acc_read (w : World) (body : B -> A -> M B) (f : B -> A -> B)
    (l : list A) :
  (∀ acc x, body acc x w = (f acc x, w)) →
  ∀ acc, for_acc l body acc w = (foldl f acc l, w).
Proof.
  intros Hbody. induction l as [|x l IH]; intros acc; [reflexivity|].
  cbn [for_acc foldl]. unfold bind. rewrite Hbody. cbn. apply IH.
Qed.

(** A property kept by every pass through the body is kept by the loop. *)
Lemma for_each_invariant (P : World -> Prop) (body : A -> M unit)
    (l : list A) :
  (∀ x w, x ∈ l → P w → P (exec (body x) w)) →
  ∀ w, P w → P (exec (for_each l body) w).
Proof.
  induction l as [|x l IH]; intros Hbody w Hw; [exact Hw|].
  change (P (exec (for_each l body) (exec (body x) w))). apply IH.
  - intros y w' Hy. apply Hbody. by right.
  - apply Hbody; [by left|exact Hw].
Qed.
End monad.

Lemma world_eta (w : World) :
  mkWorld (mkGameOfLife (width (self w)) (height (self w))
                        (alive_cells (self w)) (generation (self w)))
          (rand w) = w.
Proof. by destruct w as [[] ?]. Qed.

Lemma with_alive_same (w : World) : with_alive (alive_cells (self w)) w = w.
Proof. apply world_eta. Qed.

Lemma self_with_alive (s : gset (Z * Z)) (w : World) :
  self (with_alive s w)
  = mkGameOfLife (width (self w)) (height (self w)) s (generation (self w)).
Proof. reflexivity. Qed.

(** ** Neighbour counting *)

Lemma count_neighbors_read (row col : Z) (w : World) :
  count_neighbors row col w = (neighbor_count (alive_cells (self w)) row col, w).
Proof.
  unfold count_neighbors, neighbor_count.
  apply for_acc_read. intros count dr.
  apply for_acc_read. intros count' dc.
  destruct ((dr =? 0) && (dc =? 0)); [reflexivity|].
  unfold bind, get_alive_cells, ret. cbn.
  by destruct (bool_decide _).
Qed.

Lemma count_in_cons (s : gset (Z * Z)) (c : Z * Z) (l : list (Z * Z)) :
  count_in s (c :: l) = Z.b2z (bool_decide (c ∈ s)) + count_in s l.
Proof.
  unfold count_in. rewrite filter_cons.
  case_bool_decide; destruct (decide _); try contradiction; cbn [length Z.b2z]; lia.
Qed.

Lemma count_in_nil (s : gset (Z * Z)) : count_in s [] = 0.
Proof. reflexivity. Qed.

Lemma neighbor_count_count_in (s : gset (Z * Z)) (row col : Z) :
  neighbor_count s row col = count_in s (neighbour_cells row col).
Proof.
  unfold neighbor_count, neighbour_cells, neighbour_offsets, offsets.
  cbn [foldl fmap list_fmap fst snd Z.eqb andb].
  rewrite !count_in_cons, count_in_nil.
  repeat destruct (bool_decide _); cbn [Z.b2z]; lia.
Qed.

Lemma count_in_bounds (s : gset (Z * Z)) (l : list (Z * Z)) :
  0 ≤ count_in s l ≤ Z.of_nat (length l).
Proof.
  unfold count_in. pose proof (length_filter (λ c, c ∈ s) l). lia.
Qed.

(** ** The candidate set of [step] *)

Lemma pair_eq_iff (a b x y : Z) : (a, b) = (x, y) ↔ a = x ∧ b = y.
Proof. split; [by inversion 1|by intros [-> ->]]. Qed.

Lemma elem_of_neighbour_cells (row col : Z) (c : Z * Z) :
  c ∈ neighbour_cells row col ↔ within_one (row, col) c ∧ c ≠ (row, col).
Proof.
  destruct c as [r k]. unfold neighbour_cells, neighbour_offsets, within_one.
  cbn [fmap list_fmap fst snd].
  rewrite !elem_of_cons, elem_of_nil, !pair_eq_iff. lia.
Qed.

Lemma within_one_sym (a c : Z * Z) : within_one a c ↔ within_one c a.
Proof. unfold within_one. lia. Qed.

Lemma within_one_refl (a : Z * Z) : within_one a a.
Proof. unfold within_one. lia. Qed.

Lemma elem_of_cells_to_check_acc (l : list (Z * Z)) (acc : gset (Z * Z))
    (c : Z * Z) :
  c ∈ foldl (fun acc cell =>
        foldl (fun acc dr =>
          foldl (fun acc dc => {[ (cell.1 + dr, cell.2 + dc) ]} ∪ acc)
                acc offsets) acc offsets) acc l
  ↔ c ∈ acc ∨ ∃ a, a ∈ l ∧ within_one a c.
Proof.
  revert acc. induction l as [|x l IH]; intros acc.
  - cbn [foldl]. split; [by left|]. intros [H|(a & Ha & _)]; [done|].
    by apply elem_of_nil in Ha.
  - cbn [foldl]. rewrite IH. unfold offsets. cbn [foldl].
    rewrite !elem_of_union, !elem_of_singleton.
    destruct c as [r k], x as [xr xk]. cbn [fst snd].
    rewrite !pair_eq_iff. split.
    + intros [H|(a & Ha & Hac)].
      * assert (Hcase : (r, k) ∈ acc ∨ within_one (xr, xk) (r, k)).
        { unfold within_one. cbn [fst snd]. intuition lia. }
        destruct Hcase as [?|?]; [by left|].
        right. exists (xr, xk). split; [by left|done].
      * right. exists a. split; [by right|done].
    + intros [H|(a & Ha & Hac)]; [tauto|].
      apply elem_of_cons in Ha as [->|Ha].
      * left. unfold within_one in Hac. cbn [fst snd] in Hac.
        assert (r = xr + -1 ∨ r = xr + 0 ∨ r = xr + 1) as Hr by lia.
        assert (k = xk + -1 ∨ k = xk + 0 ∨ k = xk + 1) as Hk by lia.
        tauto.
      * right. by exists a.
Qed.

Lemma elem_of_cells_to_check (s : gset (Z * Z)) (c : Z * Z) :
  c ∈ cells_to_check s ↔ ∃ a, a ∈ s ∧ within_one a c.
Proof.
  unfold cells_to_check. rewrite elem_of_cells_to_check_acc.
  setoid_rewrite elem_of_elements. set_solver.
Qed.

(** ** The next generation *)

Lemma step_run (w : World) :
  step w =
  (tt, mkWorld (mkGameOfLife (width (self w)) (height (self w))
                             (next_alive (alive_cells (self w)))
                             (generation (self w) + 1))
               (rand w)).
Proof.
  unfold step, bind. cbn [get_alive_cells fst snd].
  rewrite (for_acc_read w _
    (fun new_alive cell =>
       if lives_on (alive_cells (self w)) cell
       then {[ cell ]} ∪ new_alive else new_alive)).
  - reflexivity.
  - intros acc cell. rewrite count_neighbors_read. cbn [fst snd].
    unfold is_alive, bind, get_alive_cells, ret, lives_on. cbn [fst snd].
    destruct (bool_decide _); [destruct (_ || _)|destruct (_ =? _)];
      reflexivity.
Qed.

Lemma elem_of_foldl_cond_insert (p : Z * Z -> bool) (l : list (Z * Z))
    (acc : gset (Z * Z)) (c : Z * Z) :
  c ∈ foldl (fun acc x => if p x then {[ x ]} ∪ acc else acc) acc l
  ↔ c ∈ acc ∨ (c ∈ l ∧ p c = true).
Proof.
  revert acc. induction l as [|x l IH]; intros acc; cbn [foldl].
  - rewrite elem_of_nil. tauto.
  - rewrite IH, elem_of_cons. destruct (p x) eqn:Hx.
    + rewrite elem_of_union, elem_of_singleton. split; [|tauto].
      intros [[->|?]|?]; tauto.
    + split; [tauto|]. intros [?|[[->|?] ?]]; [tauto|congruence|tauto].
Qed.

Lemma elem_of_next_alive (s : gset (Z * Z)) (c : Z * Z) :
  c ∈ next_alive s ↔ c ∈ cells_to_check s ∧ lives_on s c = true.
Proof.
  unfold next_alive. rewrite elem_of_foldl_cond_insert, elem_of_elements.
  set_solver.
Qed.

Lemma steps_alive (n : nat) (w : World) :
  alive_cells (self (exec (steps n) w))
  = Nat.iter n next_alive (alive_cells (self w)).
Proof.
  revert w. induction n as [|n IH]; intros w; [reflexivity|].
  change (exec (steps (S n)) w) with (exec (steps n) (exec step w)).
  rewrite IH, Nat.iter_succ_r. unfold exec. by rewrite step_run.
Qed.

Lemma steps_generation (n : nat) (w : World) :
  generation (self (exec (steps n) w)) = generation (self w) + Z.of_nat n.
Proof.
  revert w. induction n as [|n IH]; intros w; [cbn; lia|].
  change (exec (steps (S n)) w) with (exec (steps n) (exec step w)).
  rewrite IH. unfold exec. rewrite step_run. cbn [fst snd self generation]. lia.
Qed.

(** ** Translations of the grid *)

Lemma elem_of_translate (d : Z * Z) (s : gset (Z * Z)) (c : Z * Z) :
  c ∈ translate d s ↔ (c.1 - d.1, c.2 - d.2) ∈ s.
Proof.
  unfold translate. rewrite elem_of_map. split.
  - intros ([xr xk] & -> & Hx). cbn [fst snd].
    by replace (xr + d.1 - d.1) with xr by lia;
       replace (xk + d.2 - d.2) with xk by lia.
  - intros Hc. exists (c.1 - d.1, c.2 - d.2). split; [|done].
    destruct c as [r k]. cbn [fst snd]. f_equal; lia.
Qed.

Lemma translate_translate (d e : Z * Z) (s : gset (Z * Z)) :
  translate d (translate e s) = translate (e.1 + d.1, e.2 + d.2) s.
Proof.
  apply set_eq. intros [r k]. rewrite !elem_of_translate. cbn [fst snd].
  by replace (r - d.1 - e.1) with (r - (e.1 + d.1)) by lia;
     replace (k - d.2 - e.2) with (k - (e.2 + d.2)) by lia.
Qed.

Lemma size_translate (d : Z * Z) (s : gset (Z * Z)) :
  size (translate d s) = size s.
Proof.
  induction s as [|x s Hx IH] using set_ind_L.
  - unfold translate. by rewrite set_map_empty.
  - unfold translate in *. rewrite set_map_union_L, set_map_singleton_L.
    rewrite !size_union, !size_singleton, IH; [done|set_solver|].
    apply disjoint_singleton_l. fold (translate d s).
    rewrite elem_of_translate. cbn [fst snd].
    replace (x.1 + d.1 - d.1) with x.1 by lia.
    replace (x.2 + d.2 - d.2) with x.2 by lia.
    by destruct x.
Qed.

Lemma count_in_translate (d : Z * Z) (s : gset (Z * Z)) (l : list (Z * Z)) :
  count_in (translate d s) l
  = count_in s ((λ c : Z * Z, (c.1 - d.1, c.2 - d.2)) <$> l).
Proof.
  induction l as [|c l IH]; [reflexivity|].
  rewrite fmap_cons, !count_in_cons, IH. f_equal. f_equal.
  apply bool_decide_ext, elem_of_translate.
Qed.

Lemma neighbor_count_translate (d : Z * Z) (s : gset (Z * Z)) (row col : Z) :
  neighbor_count (translate d s) row col
  = neighbor_count s (row - d.1) (col - d.2).
Proof.
  rewrite !neighbor_count_count_in, count_in_translate. f_equal.
  unfold neighbour_cells, neighbour_offsets. cbn [fmap list_fmap fst snd].
  repeat (f_equal; try lia).
Qed.

Lemma lives_on_translate (d : Z * Z) (s : gset (Z * Z)) (c : Z * Z) :
  lives_on (translate d s) c = lives_on s (c.1 - d.1, c.2 - d.2).
Proof.
  unfold lives_on. cbn [fst snd]. rewrite neighbor_count_translate.
  by rewrite (bool_decide_ext _ _ (elem_of_translate d s (c.1, c.2))).
Qed.

Lemma cells_to_check_translate (d : Z * Z) (s : gset (Z * Z)) :
  cells_to_check (translate d s) = translate d (cells_to_check s).
Proof.
  apply set_eq. intros [r k].
  rewrite elem_of_translate, !elem_of_cells_to_check. cbn [fst snd]. split.
  - intros ([ar ak] & Ha & Hw). apply elem_of_translate in Ha.
    eexists. split; [exact Ha|]. unfold within_one in *. cbn [fst snd] in *. lia.
  - intros ([ar ak] & Ha & Hw). exists (ar + d.1, ak + d.2). split.
    + apply elem_of_translate. cbn [fst snd].
      by replace (ar + d.1 - d.1) with ar by lia;
         replace (ak + d.2 - d.2) with ak by lia.
    + unfold within_one in *. cbn [fst snd] in *. lia.
Qed.

(** The rule of the game does not depend on where the cells are. *)
Lemma next_alive_translate (d : Z * Z) (s : gset (Z * Z)) :
  next_alive (translate d s) = translate d (next_alive s).
Proof.
  apply set_eq. intros c.
  rewrite elem_of_translate, !elem_of_next_alive, cells_to_check_translate.
  by rewrite elem_of_translate, lives_on_translate.
Qed.

Lemma iter_next_alive_translate (n : nat) (d : Z * Z) (s : gset (Z * Z)) :
  Nat.iter n next_alive (translate d s) = translate d (Nat.iter n next_alive s).
Proof.
  induction n as [|n IH]; [reflexivity|].
  by rewrite !Nat.iter_succ, IH, next_alive_translate.
Qed.

(** ** Loops that only add cells *)

Lemma add_cell_adds (row col : Z) : adds_cells (add_cell row col) {[ (row, col) ]}.
Proof. by intros w. Qed.

Lemma ret_adds : adds_cells (ret tt) ∅.
Proof.
  intros w. unfold ret. by rewrite (left_id_L ∅ (∪)), with_alive_same.
Qed.

Lemma for_each_adds {A : Type} (body : A -> M unit) (g : A -> gset (Z * Z))
    (l : list A) :
  (∀ x, adds_cells (body x) (g x)) →
  adds_cells (for_each l body) (⋃ (g <$> l)).
Proof.
  intros Hbody. induction l as [|x l IH]; [apply ret_adds|].
  intros w. cbn [for_each]. unfold bind. rewrite Hbody. cbn [fst snd].
  rewrite IH. f_equal. unfold with_alive, exec, set_alive_cells.
  cbn [fst snd self rand width height generation alive_cells].
  rewrite fmap_cons, union_list_cons. do 2 f_equal. set_solver.
Qed.

Lemma add_pattern_adds (pattern : list string) (offset_row offset_col : Z) :
  adds_cells (add_pattern pattern offset_row offset_col)
             (pattern_cells pattern offset_row offset_col).
Proof.
  unfold add_pattern, pattern_cells. apply for_each_adds. intros [r line].
  unfold row_cells. cbn [fst snd].
  apply (for_each_adds _
    (λ cc : Z * ascii,
       if is_alive_marker cc.2
       then {[ (r + offset_row, cc.1 + offset_col) ]} else ∅)).
  intros [c char]. cbn [fst snd].
  destruct (is_alive_marker char); [apply add_cell_adds|apply ret_adds].
Qed.

Lemma elem_of_enumerate {A : Type} (l : list A) (ix : Z * A) :
  ix ∈ enumerate l ↔ ∃ i : nat, ix.1 = Z.of_nat i ∧ l !! i = Some ix.2.
Proof.
  unfold enumerate. rewrite elem_of_lookup_imap. destruct ix as [z x].
  cbn [fst snd]. split.
  - intros (i & y & Heq & Hy). inversion Heq; subst. by exists i.
  - intros (i & -> & Hi). by exists i, x.
Qed.

Lemma elem_of_pattern_cells (pattern : list string)
    (offset_row offset_col : Z) (cell : Z * Z) :
  cell ∈ pattern_cells pattern offset_row offset_col ↔
  ∃ (r c : nat) (line : string) (char : ascii),
    pattern !! r = Some line ∧
    list_ascii_of_string line !! c = Some char ∧
    is_alive_marker char = true ∧
    cell = (Z.of_nat r + offset_row, Z.of_nat c + offset_col).
Proof.
  unfold pattern_cells, row_cells. rewrite elem_of_union_list. split.
  - intros (X & HX & Hcell).
    apply list_elem_of_fmap in HX as ([zr line] & -> & Hrow).
    apply elem_of_enumerate in Hrow as (r & Hr & Hline). cbn [fst snd] in *.
    apply elem_of_union_list in Hcell as (Y & HY & Hcell).
    apply list_elem_of_fmap in HY as ([zc char] & -> & Hcol).
    apply elem_of_enumerate in Hcol as (c & Hc & Hchar). cbn [fst snd] in *.
    destruct (is_alive_marker char) eqn:Hm; [|by apply not_elem_of_empty in Hcell].
    apply elem_of_singleton in Hcell. subst. by exists r, c, line, char.
  - intros (r & c & line & char & Hline & Hchar & Hm & ->).
    eexists. split.
    + apply list_elem_of_fmap. exists (Z.of_nat r, line). split; [reflexivity|].
      apply elem_of_enumerate. by exists r.
    + cbn [fst snd]. apply elem_of_union_list. eexists. split.
      * apply list_elem_of_fmap. exists (Z.of_nat c, char).
        split; [reflexivity|]. apply elem_of_enumerate. by exists c.
      * cbn [fst snd]. rewrite Hm. by apply elem_of_singleton.
Qed.

Lemma is_alive_marker_spec (char : ascii) :
  is_alive_marker char = true ↔
  char = "O"%char ∨ char = "#"%char ∨ char = "*"%char.
Proof.
  unfold is_alive_marker. rewrite !orb_true_iff, !Ascii.eqb_eq. tauto.
Qed.

(** ** The random fill *)

Lemma float_lt_zero (x : pyfloat) :
  in_unit_interval x → float_lt x (Finite 0) = false.
Proof.
  destruct x as [q| | |]; cbn; try done. intros [H0 _].
  apply negb_false_iff. by apply Qle_bool_iff.
Qed.

Lemma float_lt_one (x : pyfloat) :
  in_unit_interval x → float_lt x (Finite 1) = true.
Proof.
  destruct x as [q| | |]; cbn; try done. intros [_ H1].
  apply negb_true_iff, not_true_is_false. intros Hle.
  apply Qle_bool_iff in Hle. by apply Qlt_not_le in H1.
Qed.

Lemma unit_rand_next (w : World) : unit_rand w → unit_rand (exec random_random w).
Proof. intros Hw k. apply (Hw (S k)). Qed.

Lemma randomize_unfold (density : pyfloat) (w : World) :
  exec (randomize density) w
  = exec (for_each (range (height (self w))) (fun row =>
            wd <- get_width ;; for_each (range wd) (fill_cell density row)))
         (exec clear w).
Proof. reflexivity. Qed.

(** With density 0 and a generator in [[0, 1)], no cell is added. *)
Lemma fill_cell_zero (row col : Z) (w : World) :
  unit_rand w →
  alive_cells (self (exec (fill_cell (Finite 0) row col) w))
  = alive_cells (self w)
  ∧ unit_rand (exec (fill_cell (Finite 0) row col) w).
Proof.
  intros Hw. unfold fill_cell, exec, bind.
  change ((random_random w).1) with (rand w 0%nat).
  rewrite (float_lt_zero _ (Hw 0%nat)). split; [reflexivity|].
  by apply unit_rand_next.
Qed.

Lemma randomize_zero_empty (w : World) :
  unit_rand w → alive_cells (self (exec (randomize (Finite 0)) w)) = ∅.
Proof.
  intros Hw. rewrite randomize_unfold.
  refine (proj1 (for_each_invariant
    (λ w', alive_cells (self w') = ∅ ∧ unit_rand w') _ _ _ _ _)).
  - intros row w1 _ Hw1.
    change (exec _ w1) with
      (exec (for_each (range (width (self w1))) (fill_cell (Finite 0) row)) w1).
    apply for_each_invariant; [|exact Hw1].
    intros col w2 _ [Hempty Hrand].
    destruct (fill_cell_zero row col w2 Hrand) as [Ha Hr].
    split; [by rewrite Ha|exact Hr].
  - split; [reflexivity|exact Hw].
Qed.

(** With density 1 and a generator in [[0, 1)], every cell is added. *)
Lemma fill_cell_one (row col : Z) (w : World) :
  unit_rand w →
  self (exec (fill_cell (Finite 1) row col) w)
  = self (with_alive ({[ (row, col) ]} ∪ alive_cells (self w)) w)
  ∧ unit_rand (exec (fill_cell (Finite 1) row col) w).
Proof.
  intros Hw. unfold fill_cell, exec, bind.
  change ((random_random w).1) with (rand w 0%nat).
  rewrite (float_lt_one _ (Hw 0%nat)). split; [reflexivity|].
  by apply unit_rand_next.
Qed.

Lemma fill_row_one (row : Z) (cols : list Z) (w : World) :
  unit_rand w →
  self (exec (for_each cols (fill_cell (Finite 1) row)) w)
  = self (with_alive (list_to_set (pair row <$> cols) ∪ alive_cells (self w)) w)
  ∧ unit_rand (exec (for_each cols (fill_cell (Finite 1) row)) w).
Proof.
  revert w. induction cols as [|col cols IH]; intros w Hw.
  - split; [|exact Hw]. cbn [fmap list_fmap list_to_set].
    by rewrite (left_id_L ∅ (∪)), with_alive_same.
  - change (exec (for_each (col :: cols) _) w) with
      (exec (for_each cols (fill_cell (Finite 1) row))
            (exec (fill_cell (Finite 1) row col) w)).
    destruct (fill_cell_one row col w Hw) as [Hs Hr].
    destruct (IH _ Hr) as [Hs' Hr']. split; [|exact Hr'].
    rewrite Hs', !self_with_alive, Hs, !self_with_alive.
    cbn [width height alive_cells generation].
    rewrite fmap_cons, list_to_set_cons. f_equal. set_solver.
Qed.

Lemma fill_rows_one (rows : list Z) (w : World) :
  unit_rand w →
  let w' := exec (for_each rows (fun row =>
              wd <- get_width ;; for_each (range wd) (fill_cell (Finite 1) row)))
              w in
  self w'
  = self (with_alive (list_to_set (grid rows (range (width (self w))))
                      ∪ alive_cells (self w)) w)
  ∧ unit_rand w'.
Proof.
  revert w. induction rows as [|row rows IH]; intros w Hw; cbn zeta.
  - split; [|exact Hw]. unfold grid. cbn [mbind list_bind list_to_set].
    by rewrite (left_id_L ∅ (∪)), with_alive_same.
  - change (exec (for_each (row :: rows) _) w) with
      (exec (for_each rows (fun row =>
               wd <- get_width ;;
               for_each (range wd) (fill_cell (Finite 1) row)))
            (exec (for_each (range (width (self w)))
                            (fill_cell (Finite 1) row)) w)).
    destruct (fill_row_one row (range (width (self w))) w Hw) as [Hs Hr].
    destruct (IH _ Hr) as [Hs' Hr']. split; [|exact Hr'].
    rewrite Hs', !self_with_alive, Hs, !self_with_alive.
    cbn [width height alive_cells generation].
    unfold grid. rewrite bind_cons, list_to_set_app_L. f_equal. set_solver.
Qed.

Lemma length_range (n : Z) : length (range n) = Z.to_nat n.
Proof. unfold range. by rewrite length_fmap, length_seq. Qed.

Lemma NoDup_range (n : Z) : NoDup (range n).
Proof.
  unfold range. apply (NoDup_fmap_2 Z.of_nat), NoDup_seq.
Qed.

Lemma length_grid (rows cols : list Z) :
  length (grid rows cols) = (length rows * length cols)%nat.
Proof.
  unfold grid. induction rows as [|row rows IH]; [reflexivity|].
  rewrite bind_cons, length_app, length_fmap, IH. cbn [length]. lia.
Qed.

Lemma NoDup_grid (rows cols : list Z) :
  NoDup rows → NoDup cols → NoDup (grid rows cols).
Proof.
  intros Hrows Hcols. unfold grid. apply NoDup_bind; [| |exact Hrows].
  - intros r1 r2 [yr yc] _ _ H1 H2.
    apply list_elem_of_fmap in H1 as (c1 & Heq1 & _).
    apply list_elem_of_fmap in H2 as (c2 & Heq2 & _). congruence.
  - intros row _. apply NoDup_fmap_2; [|exact Hcols]. by intros c1 c2 [= ->].
Qed.

Lemma randomize_one_full (w : World) :
  unit_rand w →
  alive_cells (self (exec (randomize (Finite 1)) w))
  = list_to_set (grid (range (height (self w))) (range (width (self w)))).
Proof.
  intros Hw. rewrite randomize_unfold.
  assert (Hc : unit_rand (exec clear w)) by exact Hw.
  destruct (fill_rows_one (range (height (self w))) _ Hc) as [Hs _].
  rewrite Hs, self_with_alive. cbn [alive_cells].
  change (alive_cells (self (exec clear w))) with (∅ : gset (Z * Z)).
  change (width (self (exec clear w))) with (width (self w)).
  by rewrite (right_id_L ∅ (∪)).
Qed.

(** ** The glider *)

Lemma pattern_of_glider : pattern_of "glider" PATTERNS = Some glider.
Proof. reflexivity. Qed.

Lemma glider_cells : pattern_cells glider 5 5
  = {[ (5, 6); (6, 7); (7, 5); (7, 6); (7, 7) ]}.
Proof. by vm_compute. Qed.

Lemma glider_period :
  Nat.iter 4 next_alive (pattern_cells glider 5 5)
  = translate (1, 1) (pattern_cells glider 5 5).
Proof. by vm_compute. Qed.

Lemma glider_phase_size (r : nat) :
  (r < 4)%nat → size (Nat.iter r next_alive (pattern_cells glider 5 5)) = 5%nat.
Proof.
  intros Hr. destruct r as [|[|[|[|r]]]]; [by vm_compute..|lia].
Qed.

Lemma glider_cycles (q : nat) :
  Nat.iter (4 * q) next_alive (pattern_cells glider 5 5)
  = translate (Z.of_nat q, Z.of_nat q) (pattern_cells glider 5 5).
Proof.
  induction q as [|q IH].
  - apply set_eq. intros [r k]. rewrite elem_of_translate. cbn [Nat.iter fst snd].
    change (4 * 0)%nat with 0%nat. cbn [Nat.iter nat_rect].
    by rewrite !Z.sub_0_r.
  - replace (4 * S q)%nat with (4 + 4 * q)%nat by lia.
    rewrite Nat.iter_add, IH, iter_next_alive_translate, glider_period.
    rewrite translate_translate. cbn [fst snd]. f_equal. f_equal; lia.
Qed.

Lemma glider_size (n : nat) :
  size (Nat.iter n next_alive (pattern_cells glider 5 5)) = 5%nat.
Proof.
  rewrite (Nat.div_mod_eq n 4), Nat.add_comm.
  rewrite Nat.iter_add, glider_cycles, iter_next_alive_translate, size_translate.
  apply glider_phase_size, Nat.mod_upper_bound. lia.
Qed.

(** ** The rule on the infinite grid *)

Lemma count_in_nonzero (s : gset (Z * Z)) (l : list (Z * Z)) :
  count_in s l ≠ 0 → ∃ x, x ∈ l ∧ x ∈ s.
Proof.
  unfold count_in. destruct (filter (λ c, c ∈ s) l) as [|x l'] eqn:Hf; [done|].
  intros _. exists x.
  assert (Hx : x ∈ filter (λ c, c ∈ s) l) by (rewrite Hf; by left).
  apply list_elem_of_filter in Hx. tauto.
Qed.

Lemma lives_on_conway (s : gset (Z * Z)) (cell : Z * Z) :
  lives_on s cell = true ↔ conway_alive_next s cell.
Proof.
  unfold lives_on, conway_alive_next, live_neighbours.
  rewrite neighbor_count_count_in. destruct cell as [r k]. cbn [fst snd].
  case_bool_decide; rewrite ?orb_true_iff, !Z.eqb_eq; tauto.
Qed.

Lemma conway_in_candidates (s : gset (Z * Z)) (cell : Z * Z) :
  conway_alive_next s cell → cell ∈ cells_to_check s.
Proof.
  rewrite elem_of_cells_to_check. intros [[Hin _]|[_ Hn]].
  - exists cell. split; [done|apply within_one_refl].
  - destruct (count_in_nonzero s (neighbour_cells cell.1 cell.2)) as (x & Hx & Hs).
    { unfold live_neighbours in Hn. lia. }
    exists x. split; [done|]. apply elem_of_neighbour_cells in Hx as [Hx _].
    apply within_one_sym. by destruct cell.
Qed.

Lemma elem_of_next_alive_conway (s : gset (Z * Z)) (cell : Z * Z) :
  cell ∈ next_alive s ↔ conway_alive_next s cell.
Proof.
  rewrite elem_of_next_alive, lives_on_conway. split; [tauto|].
  intros H. split; [by apply conway_in_candidates|done].
Qed.

Lemma next_alive_empty : next_alive ∅ = ∅.
Proof.
  apply set_eq. intros c. rewrite elem_of_next_alive, elem_of_cells_to_check.
  set_solver.
Qed.

(** ** The cases of the test suite *)

(** [test_count_neighbors]. *)
Example count_neighbors_three :
  eval (count_neighbors 5 5)
       (exec (add_cell 4 4 ;;; add_cell 4 5 ;;; add_cell 5 6)
             (init 10 10 (λ _, NaN))) = 3.
Proof. by vm_compute. Qed.

(** [test_blinker_oscillates]: a row of three becomes a column and back. *)
Example blinker_oscillates :
  let w := exec (add_pattern ["OOO"%string] 5 4) (init 10 10 (λ _, NaN)) in
  alive_cells (self w) = {[ (5, 4); (5, 5); (5, 6) ]}
  ∧ alive_cells (self (exec step w)) = {[ (4, 5); (5, 5); (6, 5) ]}
  ∧ alive_cells (self (exec (steps 2) w)) = {[ (5, 4); (5, 5); (5, 6) ]}
  ∧ generation (self (exec (steps 2) w)) = 2.
Proof. cbn zeta. split_and!; by vm_compute. Qed.

(** [test_block_is_still_life]. *)
Example block_is_stable :
  let w := exec (add_pattern ["OO"; "OO"]%string 5 5) (init 10 10 (λ _, NaN)) in
  alive_cells (self (exec step w)) = alive_cells (self w).
Proof. by vm_compute. Qed.

(** [test_dead_cell_with_three_neighbors_becomes_alive]. *)
Example tromino_birth :
  let w := exec (add_cell 4 4 ;;; add_cell 4 5 ;;; add_cell 5 4)
                (init 10 10 (λ _, NaN)) in
  eval (is_alive 5 5) w = false
  ∧ eval (count_neighbors 5 5) w = 3
  ∧ eval (is_alive 5 5) (exec step w) = true.
Proof. cbn zeta. split_and!; by vm_compute. Qed.

(** * The properties of the engine *)

(** C1: for a cell of the candidate set of [step], with the neighbour
    count taken as the number of alive cells among the eight cells around
    it, the cell is alive after [step] if and only if it was alive with a
    count of 2 or 3, or dead with a count of exactly 3; otherwise it is
    dead.  [count_neighbors] and [is_alive] return that count and those
    states. *)
Theorem step_rule_on_candidates (w : World) (cell : Z * Z) :
  cell ∈ cells_to_check (alive_cells (self w)) →
  let s := alive_cells (self w) in
  let s' := alive_cells (self (exec step w)) in
  let neighbors :=
    Z.of_nat (length (filter (λ c, c ∈ s)
      ((λ d : Z * Z, (cell.1 + d.1, cell.2 + d.2)) <$>
       [(-1, -1); (-1, 0); (-1, 1); (0, -1); (0, 1); (1, -1); (1, 0); (1, 1)])))
  in
  (cell ∈ s' ↔
   (cell ∈ s ∧ (neighbors = 2 ∨ neighbors = 3))
   ∨ ((cell ∉ s) ∧ neighbors = 3))
  ∧ eval (count_neighbors cell.1 cell.2) w = neighbors
  ∧ eval (is_alive cell.1 cell.2) w = bool_decide (cell ∈ s)
  ∧ eval (is_alive cell.1 cell.2) (exec step w) = bool_decide (cell ∈ s').
Proof.
  intros Hcand. cbn zeta. split_and!.
  - unfold exec. rewrite step_run. cbn [snd self alive_cells].
    apply elem_of_next_alive_conway.
  - unfold eval. rewrite count_neighbors_read. cbn [fst].
    apply neighbor_count_count_in.
  - by destruct cell.
  - by destruct cell.
Qed.

Lemma step_rule_on_candidates_witness :
  let w := exec (add_pattern glider 5 5) (init 20 20 (λ _, NaN)) in
  (6, 5) ∈ cells_to_check (alive_cells (self w))
  ∧ ((6, 5) ∉ alive_cells (self w))
  ∧ eval (count_neighbors 6 5) w = 3
  ∧ (6, 5) ∈ alive_cells (self (exec step w)).
Proof.
  cbn zeta.
  assert (Hcand : (6, 5) ∈ cells_to_check (alive_cells (self
            (exec (add_pattern glider 5 5) (init 20 20 (λ _, NaN)))))).
  { apply (bool_decide_unpack _). by vm_compute. }
  assert (Hdead : (6, 5) ∉ alive_cells (self
            (exec (add_pattern glider 5 5) (init 20 20 (λ _, NaN))))).
  { apply (bool_decide_unpack _). by vm_compute. }
  split; [exact Hcand|]. split; [exact Hdead|].
  destruct (step_rule_on_candidates _ (6, 5) Hcand) as (Hrule & _).
  split.
  - by vm_compute.
  - apply Hrule. right. split; [exact Hdead|]. by vm_compute.
Defined.

(** C2: the candidate set is the union of the alive cells and of their
    eight neighbours; computing the next generation on it alone gives what
    the rule of the game gives on every cell of the infinite grid; a cell
    outside the candidate set is dead before and after [step]. *)
Theorem step_candidates_suffice (w : World) (cell : Z * Z) :
  let s := alive_cells (self w) in
  let s' := alive_cells (self (exec step w)) in
  (cell ∈ cells_to_check s ↔
   cell ∈ s ∨ ∃ a, a ∈ s ∧ cell ∈ neighbour_cells a.1 a.2)
  ∧ (cell ∈ s' ↔ conway_alive_next s cell)
  ∧ ((cell ∉ cells_to_check s) → (cell ∉ s) ∧ (cell ∉ s')).
Proof.
  cbn zeta. unfold exec. rewrite step_run. cbn [snd self alive_cells].
  split_and!.
  - rewrite elem_of_cells_to_check. split.
    + intros (a & Ha & Hw). destruct (decide (cell = a)) as [->|Hne]; [by left|].
      right. exists a. split; [done|]. apply elem_of_neighbour_cells.
      by destruct a.
    + intros [Hin|(a & Ha & Hn)].
      * exists cell. split; [done|apply within_one_refl].
      * exists a. split; [done|].
        apply elem_of_neighbour_cells in Hn as [Hn _]. by destruct a.
  - apply elem_of_next_alive_conway.
  - intros Hout. split.
    + intros Hin. apply Hout, elem_of_cells_to_check.
      exists cell. split; [done|apply within_one_refl].
    + rewrite elem_of_next_alive. tauto.
Qed.

Lemma step_candidates_suffice_witness :
  let w := exec (add_pattern glider 5 5) (init 20 20 (λ _, NaN)) in
  ((0, 0) ∉ cells_to_check (alive_cells (self w))) ∧
  ((0, 0) ∉ alive_cells (self w)) ∧
  ((0, 0) ∉ alive_cells (self (exec step w))).
Proof.
  cbn zeta.
  assert (Hout : (0, 0) ∉ cells_to_check (alive_cells (self
            (exec (add_pattern glider 5 5) (init 20 20 (λ _, NaN)))))).
  { apply (bool_decide_unpack _). by vm_compute. }
  split; [exact Hout|].
  exact (proj2 (proj2 (step_candidates_suffice _ (0, 0))) Hout).
Defined.

(** C3: [step] adds exactly 1 to the generation counter; on an empty alive
    set it leaves the alive set empty and still adds 1 to the counter. *)
Theorem step_increments_generation (w : World) (wd ht g : Z)
    (r : nat -> pyfloat) :
  generation (self (exec step w)) = generation (self w) + 1
  ∧ alive_cells (self (exec step (mkWorld (mkGameOfLife wd ht ∅ g) r))) = ∅
  ∧ generation (self (exec step (mkWorld (mkGameOfLife wd ht ∅ g) r))) = g + 1.
Proof.
  unfold exec. rewrite !step_run. cbn [snd self alive_cells generation].
  split_and!; [reflexivity|apply next_alive_empty|reflexivity].
Qed.

(** C4: after [clear], the population is 0 and the generation counter is 0,
    whatever the state was. *)
Theorem clear_resets (w : World) :
  eval population (exec clear w) = 0
  ∧ generation (self (exec clear w)) = 0.
Proof. split; reflexivity. Qed.

Lemma eval_population (w : World) :
  eval population w = Z.of_nat (size (alive_cells (self w))).
Proof. reflexivity. Qed.

Lemma add_pattern_alive (pattern : list string) (offset_row offset_col : Z)
    (w : World) :
  exec (add_pattern pattern offset_row offset_col) w
  = with_alive (pattern_cells pattern offset_row offset_col
                ∪ alive_cells (self w)) w.
Proof. unfold exec. by rewrite add_pattern_adds. Qed.

(** C5: with the glider of the catalog loaded at offset (5, 5) into an
    empty engine, the population is 5 after any number of calls of [step],
    and after 4 calls the alive set is the initial one moved by (+1, +1). *)
Theorem glider_population_and_shift (wd ht : Z) (r : nat -> pyfloat) :
  let w0 := exec (add_pattern glider 5 5) (init wd ht r) in
  pattern_of "glider" PATTERNS = Some glider
  ∧ (∀ n : nat, eval population (exec (steps n) w0) = 5)
  ∧ alive_cells (self (exec (steps 4) w0))
    = translate (1, 1) (alive_cells (self w0)).
Proof.
  cbn zeta. rewrite add_pattern_alive.
  assert (Hstart : alive_cells (self (with_alive
            (pattern_cells glider 5 5 ∪ alive_cells (self (init wd ht r)))
            (init wd ht r))) = pattern_cells glider 5 5).
  { rewrite self_with_alive. cbn [alive_cells init self].
    by rewrite (right_id_L ∅ (∪)). }
  split_and!.
  - apply pattern_of_glider.
  - intros n. by rewrite eval_population, steps_alive, Hstart, glider_size.
  - rewrite steps_alive, Hstart. apply glider_period.
Qed.

(** C6: [add_pattern] makes alive exactly the cells that were alive and the
    cells [(r + offset_row, c + offset_col)] for the positions [(r, c)] of
    the pattern that hold ['O'], ['#'] or ['*']; no cell is removed, and
    nothing else of the state changes. *)
Theorem add_pattern_overlay (w : World) (pattern : list string)
    (offset_row offset_col : Z) :
  let w' := exec (add_pattern pattern offset_row offset_col) w in
  (∀ cell : Z * Z,
     cell ∈ alive_cells (self w') ↔
     cell ∈ alive_cells (self w)
     ∨ ∃ (r c : nat) (line : string) (char : ascii),
         pattern !! r = Some line
         ∧ list_ascii_of_string line !! c = Some char
         ∧ (char = "O"%char ∨ char = "#"%char ∨ char = "*"%char)
         ∧ cell = (Z.of_nat r + offset_row, Z.of_nat c + offset_col))
  ∧ alive_cells (self w) ⊆ alive_cells (self w')
  ∧ width (self w') = width (self w)
  ∧ height (self w') = height (self w)
  ∧ generation (self w') = generation (self w)
  ∧ rand w' = rand w.
Proof.
  cbn zeta. rewrite add_pattern_alive, self_with_alive.
  cbn [alive_cells width height generation].
  split_and!; try reflexivity.
  - intros cell. rewrite elem_of_union, elem_of_pattern_cells.
    setoid_rewrite is_alive_marker_spec. tauto.
  - apply union_subseteq_r.
Qed.

(** C7: [count_neighbors] returns the number of alive cells among the
    eight cells [(row + dr, col + dc)], [dr] and [dc] in [-1 .. 1] and not
    both 0; the result is between 0 and 8; the state is left as it was;
    the width and the height play no part. *)
Theorem count_neighbors_spec (wd ht g : Z) (s : gset (Z * Z))
    (r : nat -> pyfloat) (row col : Z) :
  let w := mkWorld (mkGameOfLife wd ht s g) r in
  eval (count_neighbors row col) w
  = Z.of_nat (length (filter (λ c, c ∈ s)
      ((λ d : Z * Z, (row + d.1, col + d.2)) <$>
       [(-1, -1); (-1, 0); (-1, 1); (0, -1); (0, 1); (1, -1); (1, 0); (1, 1)])))
  ∧ 0 ≤ eval (count_neighbors row col) w ≤ 8
  ∧ exec (count_neighbors row col) w = w.
Proof.
  cbn zeta. unfold eval, exec. rewrite count_neighbors_read.
  cbn [fst snd self alive_cells]. rewrite neighbor_count_count_in.
  pose proof (count_in_bounds s (neighbour_cells row col)) as Hb.
  change (Z.of_nat (length (neighbour_cells row col))) with 8 in Hb.
  split_and!; try reflexivity; lia.
Qed.

(** A neighbour outside the rectangle of the width and the height counts. *)
Example count_neighbors_out_of_bounds :
  eval (count_neighbors 0 0)
       (exec (add_cell (-1) (-1)) (init 3 3 (λ _, NaN))) = 1.
Proof. by vm_compute. Qed.

(** C8: [add_cell] twice is [add_cell] once, and [add_cell] of an alive
    cell changes nothing; [remove_cell] of a cell that is not alive returns
    normally and leaves the state, hence the population, as it was. *)
Theorem add_cell_idempotent_remove_absent (w : World) (row col : Z) :
  exec (add_cell row col ;;; add_cell row col) w = exec (add_cell row col) w
  ∧ ((row, col) ∈ alive_cells (self w) → exec (add_cell row col) w = w)
  ∧ ((row, col) ∉ alive_cells (self w) →
     remove_cell row col w = (tt, w)
     ∧ eval population (exec (remove_cell row col) w) = eval population w).
Proof.
  split_and!.
  - unfold exec, add_cell, bind, set_alive_cells, get_alive_cells.
    cbn [fst snd self alive_cells width height generation rand].
    do 2 f_equal. set_solver.
  - intros Hin.
    change (exec (add_cell row col) w)
      with (with_alive ({[ (row, col) ]} ∪ alive_cells (self w)) w).
    replace ({[ (row, col) ]} ∪ alive_cells (self w))
      with (alive_cells (self w)) by set_solver.
    apply with_alive_same.
  - intros Hout.
    assert (Hw : remove_cell row col w = (tt, w)).
    { change (remove_cell row col w)
        with (tt, with_alive (alive_cells (self w) ∖ {[ (row, col) ]}) w).
      replace (alive_cells (self w) ∖ {[ (row, col) ]})
        with (alive_cells (self w)) by set_solver.
      by rewrite with_alive_same. }
    split; [exact Hw|]. unfold exec. by rewrite Hw.
Qed.

Lemma add_cell_idempotent_remove_absent_witness :
  let w := exec (add_cell 5 5) (init 10 10 (λ _, NaN)) in
  exec (add_cell 5 5) w = w
  ∧ remove_cell 2 3 w = (tt, w)
  ∧ eval population (exec (remove_cell 2 3) w) = eval population w.
Proof.
  cbn zeta. split.
  - apply (proj1 (proj2 (add_cell_idempotent_remove_absent _ 5 5))).
    apply (bool_decide_unpack _). by vm_compute.
  - apply (proj2 (proj2 (add_cell_idempotent_remove_absent _ 2 3))).
    apply (bool_decide_unpack _). by vm_compute.
Defined.

(** C9 as the code has it: when [random.random()] returns values in
    [[0, 1)], the population is 0 after [randomize(0.0)], and after
    [randomize(1.0)] it is the number of cells of the rectangle
    [range(height)] by [range(width)], which is [width * height] when
    neither is negative and 0 otherwise. *)
Theorem randomize_extreme_densities (w : World) :
  unit_rand w →
  eval population (exec (randomize (Finite 0)) w) = 0
  ∧ eval population (exec (randomize (Finite 1)) w)
    = Z.max 0 (width (self w)) * Z.max 0 (height (self w))
  ∧ (0 ≤ width (self w) → 0 ≤ height (self w) →
     eval population (exec (randomize (Finite 1)) w)
     = width (self w) * height (self w)).
Proof.
  intros Hw.
  assert (Hfull : eval population (exec (randomize (Finite 1)) w)
                  = Z.max 0 (width (self w)) * Z.max 0 (height (self w))).
  { rewrite eval_population, randomize_one_full by exact Hw.
    rewrite size_list_to_set by (apply NoDup_grid; apply NoDup_range).
    rewrite length_grid, !length_range, Nat2Z.inj_mul. lia. }
  split_and!.
  - by rewrite eval_population, randomize_zero_empty.
  - exact Hfull.
  - intros Hwd Hht. rewrite Hfull. lia.
Qed.

Lemma randomize_extreme_densities_witness :
  let w := exec (add_cell 7 7) (init 3 2 (λ _, Finite (1 # 2))) in
  unit_rand w
  ∧ eval population (exec (randomize (Finite 0)) w) = 0
  ∧ eval population (exec (randomize (Finite 1)) w) = 3 * 2.
Proof.
  cbn zeta.
  assert (Hw : unit_rand (exec (add_cell 7 7) (init 3 2 (λ _, Finite (1 # 2))))).
  { intros k. split; [unfold Qle|unfold Qlt]; cbn; lia. }
  split; [exact Hw|].
  destruct (randomize_extreme_densities _ Hw) as (H0 & _ & H1).
  split; [exact H0|]. apply H1; cbn; lia.
Defined.

(** On an engine of width -2 and height 3, [randomize(1.0)] leaves the
    population at 0, which is not the product -6. *)
Lemma randomize_full_negative_width :
  let w := init (-2) 3 (λ _, Finite (1 # 2)) in
  unit_rand w
  ∧ eval population (exec (randomize (Finite 1)) w) = 0
  ∧ eval population (exec (randomize (Finite 1)) w)
    ≠ width (self w) * height (self w).
Proof.
  cbn zeta. split; [intros k; split; [unfold Qle|unfold Qlt]; cbn; lia|].
  split; [by vm_compute|]. vm_compute. discriminate.
Qed.

(** C10: [randomize] sets the generation counter to 0, for every state,
    every density and every generator. *)
Theorem randomize_resets_generation (w : World) (density : pyfloat) :
  generation (self (exec (randomize density) w)) = 0.
Proof.
  rewrite randomize_unfold.
  apply (for_each_invariant (λ w', generation (self w') = 0)); [|reflexivity].
  intros row w1 _ Hw1.
  change (exec _ w1) with
    (exec (for_each (range (width (self w1))) (fill_cell density row)) w1).
  apply (for_each_invariant (λ w', generation (self w') = 0)); [|exact Hw1].
  intros col w2 _ Hw2. unfold fill_cell, exec, bind.
  by destruct (float_lt _ _).
Qed.

(** * Further properties of the engine *)

(** ** Single cells *)

Lemma size_add_cell (s : gset (Z * Z)) (c : Z * Z) :
  Z.of_nat (size ({[ c ]} ∪ s))
  = Z.of_nat (size s) + (if bool_decide (c ∈ s) then 0 else 1).
Proof.
  case_bool_decide as Hc.
  - replace ({[ c ]} ∪ s) with s by set_solver. lia.
  - rewrite size_union, size_singleton by set_solver. lia.
Qed.

Lemma size_remove_cell (s : gset (Z * Z)) (c : Z * Z) :
  Z.of_nat (size (s ∖ {[ c ]}))
  = Z.of_nat (size s) - (if bool_decide (c ∈ s) then 1 else 0).
Proof.
  case_bool_decide as Hc.
  - rewrite size_difference, size_singleton by set_solver.
    assert (size s ≠ 0%nat); [|lia].
    intros Hz. apply size_empty_inv in Hz. set_solver.
  - replace (s ∖ {[ c ]}) with s by set_solver. lia.
Qed.

(** X1: after [add_cell], the cell is alive, every other cell is as it
    was, and the population has grown by 1 if the cell was dead and by 0
    if it was alive. *)
Theorem add_cell_effect (w : World) (row col : Z) :
  let w' := exec (add_cell row col) w in
  eval (is_alive row col) w' = true
  ∧ (∀ r c : Z, (r, c) ≠ (row, col) →
       eval (is_alive r c) w' = eval (is_alive r c) w)
  ∧ eval population w'
    = eval population w + (if eval (is_alive row col) w then 0 else 1).
Proof.
  cbn zeta. split_and!.
  - apply bool_decide_eq_true. cbn. set_solver.
  - intros r c Hne. apply bool_decide_ext. cbn. set_solver.
  - apply size_add_cell.
Qed.

(** X2: after [remove_cell], the cell is dead, every other cell is as it
    was, and the population has dropped by 1 if the cell was alive and by
    0 if it was dead. *)
Theorem remove_cell_effect (w : World) (row col : Z) :
  let w' := exec (remove_cell row col) w in
  eval (is_alive row col) w' = false
  ∧ (∀ r c : Z, (r, c) ≠ (row, col) →
       eval (is_alive r c) w' = eval (is_alive r c) w)
  ∧ eval population w'
    = eval population w - (if eval (is_alive row col) w then 1 else 0).
Proof.
  cbn zeta. split_and!.
  - apply bool_decide_eq_false. cbn. set_solver.
  - intros r c Hne. apply bool_decide_ext. cbn. set_solver.
  - apply size_remove_cell.
Qed.

(** X3: [add_cell] then [remove_cell] of a dead cell, and [remove_cell]
    then [add_cell] of an alive cell, give the state back. *)
Theorem add_remove_round_trip (w : World) (row col : Z) :
  ((row, col) ∉ alive_cells (self w) →
   exec (add_cell row col ;;; remove_cell row col) w = w)
  ∧ ((row, col) ∈ alive_cells (self w) →
     exec (remove_cell row col ;;; add_cell row col) w = w).
Proof.
  split; intros Hc.
  - change (exec (add_cell row col ;;; remove_cell row col) w)
      with (with_alive (({[ (row, col) ]} ∪ alive_cells (self w))
                        ∖ {[ (row, col) ]}) w).
    replace (({[ (row, col) ]} ∪ alive_cells (self w)) ∖ {[ (row, col) ]})
      with (alive_cells (self w)) by set_solver.
    apply with_alive_same.
  - change (exec (remove_cell row col ;;; add_cell row col) w)
      with (with_alive ({[ (row, col) ]}
                        ∪ alive_cells (self w) ∖ {[ (row, col) ]}) w).
    replace ({[ (row, col) ]} ∪ alive_cells (self w) ∖ {[ (row, col) ]})
      with (alive_cells (self w)).
    + apply with_alive_same.
    + apply set_eq. intros x. rewrite elem_of_union, elem_of_difference,
        elem_of_singleton. destruct (decide (x = (row, col))) as [->|]; tauto.
Qed.

Lemma add_remove_round_trip_witness :
  let w := exec (add_cell 1 2) (init 10 10 (λ _, NaN)) in
  exec (add_cell 3 4 ;;; remove_cell 3 4) w = w
  ∧ exec (remove_cell 1 2 ;;; add_cell 1 2) w = w.
Proof.
  cbn zeta. split.
  - apply (proj1 (add_remove_round_trip _ 3 4)).
    apply (bool_decide_unpack _). by vm_compute.
  - apply (proj2 (add_remove_round_trip _ 1 2)).
    apply (bool_decide_unpack _). by vm_compute.
Defined.

(** ** Neighbour counts and population *)

Lemma NoDup_neighbour_cells (row col : Z) : NoDup (neighbour_cells row col).
Proof.
  unfold neighbour_cells. apply NoDup_fmap_2_strong.
  - intros [a b] [c d] _ _. cbn [fst snd]. intros [= ? ?]. f_equal; lia.
  - apply (bool_decide_unpack _). by vm_compute.
Qed.

Lemma not_elem_of_neighbour_cells (row col : Z) :
  (row, col) ∉ neighbour_cells row col.
Proof. rewrite elem_of_neighbour_cells. tauto. Qed.

Lemma count_in_le_size (s : gset (Z * Z)) (l : list (Z * Z)) :
  NoDup l → count_in s l ≤ Z.of_nat (size s).
Proof.
  intros Hl. unfold count_in.
  rewrite <- (size_list_to_set (C := gset (Z * Z))) by by apply NoDup_filter.
  apply inj_le, subseteq_size. intros x Hx.
  apply elem_of_list_to_set, list_elem_of_filter in Hx. tauto.
Qed.

Lemma count_in_lt_size (s : gset (Z * Z)) (l : list (Z * Z)) (c : Z * Z) :
  NoDup l → c ∉ l → c ∈ s → count_in s l + 1 ≤ Z.of_nat (size s).
Proof.
  intros Hl Hc Hs. unfold count_in.
  assert (Hnd : NoDup (c :: filter (λ x, x ∈ s) l)).
  { constructor; [|by apply NoDup_filter].
    rewrite list_elem_of_filter. tauto. }
  replace (Z.of_nat (length (filter (λ x, x ∈ s) l)) + 1)
    with (Z.of_nat (length (c :: filter (λ x, x ∈ s) l)))
    by (cbn [length]; lia).
  rewrite <- (size_list_to_set (C := gset (Z * Z))) by exact Hnd.
  apply inj_le, subseteq_size. intros x Hx.
  apply elem_of_list_to_set, elem_of_cons in Hx as [->|Hx]; [done|].
  apply list_elem_of_filter in Hx. tauto.
Qed.

(** X4: a cell has at most as many alive neighbours as there are alive
    cells, not counting the cell itself. *)
Theorem count_neighbors_le_population (w : World) (row col : Z) :
  eval (count_neighbors row col) w
  ≤ eval population w - (if eval (is_alive row col) w then 1 else 0).
Proof.
  unfold eval. rewrite count_neighbors_read. cbn [fst].
  rewrite neighbor_count_count_in.
  change ((population w).1) with (Z.of_nat (size (alive_cells (self w)))).
  change ((is_alive row col w).1)
    with (bool_decide ((row, col) ∈ alive_cells (self w))).
  case_bool_decide as Hc.
  - pose proof (count_in_lt_size _ _ _ (NoDup_neighbour_cells row col)
                  (not_elem_of_neighbour_cells row col) Hc). lia.
  - pose proof (count_in_le_size (alive_cells (self w)) _
                  (NoDup_neighbour_cells row col)). lia.
Qed.

Lemma next_alive_underpopulated (s : gset (Z * Z)) :
  (size s < 3)%nat → next_alive s = ∅.
Proof.
  intros Hs. apply set_eq. intros [r k].
  rewrite elem_of_next_alive_conway. split; [|set_solver].
  unfold conway_alive_next, live_neighbours. cbn [fst snd].
  intros [[Hin Hn]|[_ Hn]]; exfalso.
  - pose proof (count_in_lt_size _ _ _ (NoDup_neighbour_cells r k)
                  (not_elem_of_neighbour_cells r k) Hin). lia.
  - pose proof (count_in_le_size s _ (NoDup_neighbour_cells r k)). lia.
Qed.

Lemma iter_next_alive_empty (n : nat) : Nat.iter n next_alive ∅ = ∅.
Proof.
  induction n as [|n IH]; [reflexivity|].
  by rewrite Nat.iter_succ, IH, next_alive_empty.
Qed.

(** X5: an engine with fewer than 3 alive cells has none after one call of
    [step], nor after any further call. *)
Theorem step_underpopulated (w : World) (n : nat) :
  eval population w < 3 → (0 < n)%nat →
  eval population (exec (steps n) w) = 0.
Proof.
  rewrite !eval_population. intros Hs Hn. rewrite steps_alive.
  destruct n as [|n]; [lia|].
  rewrite Nat.iter_succ_r, next_alive_underpopulated by lia.
  by rewrite iter_next_alive_empty.
Qed.

Lemma step_underpopulated_witness :
  let w := exec (add_cell 5 5 ;;; add_cell 5 6) (init 10 10 (λ _, NaN)) in
  eval population w < 3 ∧ (0 < 4)%nat
  ∧ eval population (exec (steps 4) w) = 0.
Proof.
  cbn zeta.
  assert (H : eval population
    (exec (add_cell 5 5 ;;; add_cell 5 6) (init 10 10 (λ _, NaN))) < 3)
    by by vm_compute.
  assert (Hn : (0 < 4)%nat) by lia.
  split; [exact H|]. split; [exact Hn|].
  exact (step_underpopulated _ 4 H Hn).
Defined.

(** ** How far a generation can reach *)

Lemma next_alive_near (s : gset (Z * Z)) (c : Z * Z) :
  c ∈ next_alive s → ∃ a, a ∈ s ∧ within_one a c.
Proof.
  rewrite elem_of_next_alive, elem_of_cells_to_check. tauto.
Qed.

Lemma iter_next_alive_near (n : nat) (s : gset (Z * Z)) (c : Z * Z) :
  c ∈ Nat.iter n next_alive s →
  ∃ a, a ∈ s ∧ Z.abs (c.1 - a.1) ≤ Z.of_nat n ∧ Z.abs (c.2 - a.2) ≤ Z.of_nat n.
Proof.
  revert c. induction n as [|n IH]; intros c.
  - intros Hc. exists c. split; [exact Hc|lia].
  - rewrite Nat.iter_succ. intros Hc.
    apply next_alive_near in Hc as (b & Hb & Hbc).
    apply IH in Hb as (a & Ha & H1 & H2). exists a. split; [exact Ha|].
    unfold within_one in Hbc. lia.
Qed.

(** X6: [n] calls of [step] add [n] to the generation counter, keep the
    width, the height and the random generator, and a cell alive at the end
    is at most [n] rows and [n] columns away from a cell alive at the
    start. *)
Theorem steps_reach (n : nat) (w : World) :
  let w' := exec (steps n) w in
  generation (self w') = generation (self w) + Z.of_nat n
  ∧ width (self w') = width (self w)
  ∧ height (self w') = height (self w)
  ∧ rand w' = rand w
  ∧ ∀ c : Z * Z, c ∈ alive_cells (self w') →
      ∃ a : Z * Z, a ∈ alive_cells (self w)
        ∧ Z.abs (c.1 - a.1) ≤ Z.of_nat n ∧ Z.abs (c.2 - a.2) ≤ Z.of_nat n.
Proof.
  cbn zeta. split_and!.
  - apply steps_generation.
  - revert w. induction n as [|n IH]; intros w; [reflexivity|].
    change (exec (steps (S n)) w) with (exec (steps n) (exec step w)).
    rewrite IH. unfold exec. by rewrite step_run.
  - revert w. induction n as [|n IH]; intros w; [reflexivity|].
    change (exec (steps (S n)) w) with (exec (steps n) (exec step w)).
    rewrite IH. unfold exec. by rewrite step_run.
  - revert w. induction n as [|n IH]; intros w; [reflexivity|].
    change (exec (steps (S n)) w) with (exec (steps n) (exec step w)).
    rewrite IH. unfold exec. by rewrite step_run.
  - intros c. rewrite steps_alive. apply iter_next_alive_near.
Qed.

(** ** Moving and repeating patterns *)

(** X7: moving the alive cells by a vector and then calling [step] [n]
    times gives what calling [step] [n] times and then moving gives. *)
Theorem steps_translate (n : nat) (d : Z * Z) (w : World) :
  alive_cells (self (exec (steps n)
                          (with_alive (translate d (alive_cells (self w))) w)))
  = translate d (alive_cells (self (exec (steps n) w))).
Proof.
  rewrite !steps_alive, self_with_alive. cbn [alive_cells].
  apply iter_next_alive_translate.
Qed.

Lemma iter_next_alive_period (p : nat) (d : Z * Z) (s : gset (Z * Z)) :
  Nat.iter p next_alive s = translate d s →
  ∀ q n : nat,
    Nat.iter (q * p + n) next_alive s
    = translate (Z.of_nat q * d.1, Z.of_nat q * d.2) (Nat.iter n next_alive s).
Proof.
  intros Hp q n. rewrite Nat.add_comm, Nat.iter_add.
  rewrite <- iter_next_alive_translate. f_equal. clear n.
  induction q as [|q IH].
  - apply set_eq. intros [r k]. rewrite elem_of_translate. cbn [fst snd].
    change (0 * p)%nat with 0%nat. cbn [Nat.iter nat_rect].
    by replace (r - Z.of_nat 0 * d.1) with r by lia;
       replace (k - Z.of_nat 0 * d.2) with k by lia.
  - replace (S q * p)%nat with (p + q * p)%nat by lia.
    rewrite Nat.iter_add, IH, iter_next_alive_translate, Hp.
    rewrite translate_translate. cbn [fst snd]. f_equal. f_equal; lia.
Qed.

(** X8: if [p] calls of [step] move the alive set by a vector [d] (the
    null vector for a still life or an oscillator), then [q * p + n] calls
    give the alive set of [n] calls moved by [q] times [d], with the
    population of [n] calls. *)
Theorem steps_periodic (p : nat) (d : Z * Z) (w : World) :
  alive_cells (self (exec (steps p) w)) = translate d (alive_cells (self w)) →
  ∀ q n : nat,
    alive_cells (self (exec (steps (q * p + n)) w))
    = translate (Z.of_nat q * d.1, Z.of_nat q * d.2)
                (alive_cells (self (exec (steps n) w)))
    ∧ eval population (exec (steps (q * p + n)) w)
      = eval population (exec (steps n) w).
Proof.
  rewrite steps_alive. intros Hp q n.
  rewrite !eval_population, !steps_alive.
  rewrite (iter_next_alive_period p d _ Hp). by rewrite size_translate.
Qed.

Lemma steps_periodic_witness :
  let w := exec (add_pattern ["OOO"%string] 5 4) (init 10 10 (λ _, NaN)) in
  alive_cells (self (exec (steps 2) w)) = translate (0, 0) (alive_cells (self w))
  ∧ alive_cells (self (exec (steps (3 * 2 + 1)) w))
    = translate (3 * 0, 3 * 0) (alive_cells (self (exec (steps 1) w)))
  ∧ eval population (exec (steps (3 * 2 + 1)) w)
    = eval population (exec (steps 1) w).
Proof.
  cbn zeta.
  assert (H : alive_cells (self (exec (steps 2)
      (exec (add_pattern ["OOO"%string] 5 4) (init 10 10 (λ _, NaN)))))
    = translate (0, 0) (alive_cells (self
      (exec (add_pattern ["OOO"%string] 5 4) (init 10 10 (λ _, NaN))))))
    by by vm_compute.
  split; [exact H|]. exact (steps_periodic 2 (0, 0) _ H 3%nat 1%nat).
Defined.

(** ** Loading patterns *)

Lemma with_alive_with_alive (s t : gset (Z * Z)) (w : World) :
  with_alive s (with_alive t w) = with_alive s w.
Proof. reflexivity. Qed.

Lemma pattern_cells_translate (pattern : list string)
    (offset_row offset_col : Z) :
  pattern_cells pattern offset_row offset_col
  = translate (offset_row, offset_col) (pattern_cells pattern 0 0).
Proof.
  apply set_eq. intros [r k].
  rewrite elem_of_translate, !elem_of_pattern_cells. cbn [fst snd].
  split; intros (i & j & line & char & Hi & Hj & Hm & Heq);
    exists i, j, line, char; split_and!; try done;
    apply pair_eq_iff in Heq as [? ?]; f_equal; lia.
Qed.

(** X9: loading a pattern at an offset into an empty engine gives the
    cells of the pattern loaded at (0, 0), moved by the offset. *)
Theorem add_pattern_offset (pattern : list string) (offset_row offset_col : Z)
    (wd ht : Z) (r : nat -> pyfloat) :
  alive_cells (self (exec (add_pattern pattern offset_row offset_col)
                          (init wd ht r)))
  = translate (offset_row, offset_col)
      (alive_cells (self (exec (add_pattern pattern 0 0) (init wd ht r)))).
Proof.
  rewrite !add_pattern_alive, !self_with_alive. cbn [alive_cells init self].
  rewrite !(right_id_L ∅ (∪)). apply pattern_cells_translate.
Qed.

Lemma pattern_of_elem (name : string) (catalog : list (string * list string))
    (pattern : list string) :
  pattern_of name catalog = Some pattern → (name, pattern) ∈ catalog.
Proof.
  induction catalog as [|[k v] rest IH]; [done|]. cbn [pattern_of].
  destruct (String.eqb k name) eqn:Hk.
  - intros [= ->]. apply String.eqb_eq in Hk as ->. by left.
  - intros H. right. by apply IH.
Qed.

Lemma PATTERNS_nonempty :
  Forall (λ kv : string * list string, size (pattern_cells kv.2 0 0) ≠ 0%nat)
         PATTERNS.
Proof. apply (bool_decide_unpack _). by vm_compute. Qed.

(** X10: every pattern of the catalog, loaded at any offset into an empty
    engine, gives a population above 0. *)
Theorem catalog_patterns_populate (name : string) (pattern : list string)
    (offset_row offset_col wd ht : Z) (r : nat -> pyfloat) :
  pattern_of name PATTERNS = Some pattern →
  0 < eval population (exec (add_pattern pattern offset_row offset_col)
                            (init wd ht r)).
Proof.
  intros Hp. apply pattern_of_elem in Hp.
  pose proof (proj1 (Forall_forall _ _) PATTERNS_nonempty _ Hp) as Hsize.
  cbn [snd] in Hsize.
  rewrite eval_population, add_pattern_alive, self_with_alive.
  cbn [alive_cells init self]. rewrite (right_id_L ∅ (∪)).
  rewrite pattern_cells_translate, size_translate. lia.
Qed.

Lemma catalog_patterns_populate_witness :
  pattern_of "acorn" PATTERNS = Some [".O....."; "...O..."; "OO..OOO"]%string
  ∧ 0 < eval population
          (exec (add_pattern [".O....."; "...O..."; "OO..OOO"]%string (-4) 100)
                (init 70 30 (λ _, NaN))).
Proof.
  assert (H : pattern_of "acorn" PATTERNS
              = Some [".O....."; "...O..."; "OO..OOO"]%string) by reflexivity.
  split; [exact H|].
  exact (catalog_patterns_populate "acorn" _ (-4) 100 70 30 (λ _, NaN) H).
Defined.

(** X11: loading a pattern twice at the same place is loading it once,
    the order in which two patterns are loaded does not matter, and loading
    a pattern never lowers the population. *)
Theorem add_pattern_compose (w : World) (p q : list string)
    (pr pc qr qc : Z) :
  exec (add_pattern p pr pc ;;; add_pattern p pr pc) w
  = exec (add_pattern p pr pc) w
  ∧ exec (add_pattern p pr pc ;;; add_pattern q qr qc) w
    = exec (add_pattern q qr qc ;;; add_pattern p pr pc) w
  ∧ eval population w ≤ eval population (exec (add_pattern p pr pc) w).
Proof.
  assert (Hseq : ∀ (a b : list string) (ar ac br bc : Z),
    exec (add_pattern a ar ac ;;; add_pattern b br bc) w
    = with_alive (pattern_cells b br bc
                  ∪ (pattern_cells a ar ac ∪ alive_cells (self w))) w).
  { intros a b ar ac br bc.
    change (exec (add_pattern a ar ac ;;; add_pattern b br bc) w)
      with (exec (add_pattern b br bc) (exec (add_pattern a ar ac) w)).
    by rewrite !add_pattern_alive, self_with_alive, with_alive_with_alive. }
  split_and!.
  - rewrite Hseq, add_pattern_alive. f_equal. set_solver.
  - rewrite !Hseq. f_equal. set_solver.
  - rewrite !eval_population, add_pattern_alive, self_with_alive.
    cbn [alive_cells]. apply inj_le, subseteq_size. set_solver.
Qed.

Lemma size_union_list_imap {A : Type} (n : A -> nat) (l : list A) :
  ∀ F : nat -> A -> gset (Z * Z),
    (∀ i x, size (F i x) = n x) →
    (∀ i j x y, i ≠ j → F i x ## F j y) →
    size (⋃ imap F l) = sum_list_with n l.
Proof.
  induction l as [|x l IH]; intros F Hsize Hdisj; [reflexivity|].
  rewrite imap_cons, union_list_cons. cbn [sum_list_with].
  rewrite size_union, Hsize, (IH (F ∘ S)).
  - reflexivity.
  - intros i y. apply Hsize.
  - intros i j y z Hij. apply Hdisj. lia.
  - intros c Hc Hc'. apply elem_of_union_list in Hc' as (X & HX & HcX).
    apply elem_of_lookup_imap in HX as (i & y & -> & _).
    exact (Hdisj 0%nat (S i) x y ltac:(lia) c Hc HcX).
Qed.

Lemma row_cells_imap (offset_row offset_col r : Z) (line : string) :
  row_cells offset_row offset_col (r, line)
  = ⋃ imap (λ (c : nat) (char : ascii),
              if is_alive_marker char
              then {[ (r + offset_row, Z.of_nat c + offset_col) ]}
              else (∅ : gset (Z * Z)))
           (list_ascii_of_string line).
Proof. unfold row_cells, enumerate. by rewrite fmap_imap. Qed.

Lemma row_markers_sum (line : string) :
  row_markers line
  = sum_list_with (λ char, if is_alive_marker char then 1%nat else 0%nat)
                  (list_ascii_of_string line).
Proof.
  unfold row_markers. induction (list_ascii_of_string line) as [|c l IH];
    [reflexivity|].
  rewrite filter_cons. cbn [sum_list_with]. rewrite <- IH.
  destruct (is_alive_marker c); by destruct (decide _).
Qed.

Lemma size_row_cells (offset_row offset_col r : Z) (line : string) :
  size (row_cells offset_row offset_col (r, line)) = row_markers line.
Proof.
  rewrite row_cells_imap, row_markers_sum. apply size_union_list_imap.
  - intros i char. destruct (is_alive_marker char);
      [apply size_singleton|apply size_empty].
  - intros i j x y Hij. destruct (is_alive_marker x), (is_alive_marker y);
      try set_solver.
    apply disjoint_singleton_l. rewrite elem_of_singleton, pair_eq_iff. lia.
Qed.

Lemma elem_of_row_cells (offset_row offset_col r : Z) (line : string)
    (cell : Z * Z) :
  cell ∈ row_cells offset_row offset_col (r, line) → cell.1 = r + offset_row.
Proof.
  rewrite row_cells_imap. intros (X & HX & Hc)%elem_of_union_list.
  apply elem_of_lookup_imap in HX as (i & char & -> & _).
  destruct (is_alive_marker char); [|by apply not_elem_of_empty in Hc].
  by apply elem_of_singleton in Hc as ->.
Qed.

Lemma size_pattern_cells (pattern : list string) (offset_row offset_col : Z) :
  size (pattern_cells pattern offset_row offset_col) = pattern_markers pattern.
Proof.
  unfold pattern_cells, pattern_markers, enumerate. rewrite fmap_imap.
  apply (size_union_list_imap row_markers pattern
           (λ i line, row_cells offset_row offset_col (Z.of_nat i, line))).
  - intros i line. apply size_row_cells.
  - intros i j x y Hij c Hx Hy.
    apply elem_of_row_cells in Hx. apply elem_of_row_cells in Hy. lia.
Qed.

(** X12: a pattern loaded into an empty engine gives as many alive cells
    as it has alive markers; loaded into any engine, it adds at most that
    many. *)
Theorem add_pattern_population (w : World) (pattern : list string)
    (offset_row offset_col wd ht : Z) (r : nat -> pyfloat) :
  eval population (exec (add_pattern pattern offset_row offset_col)
                        (init wd ht r))
  = Z.of_nat (pattern_markers pattern)
  ∧ eval population (exec (add_pattern pattern offset_row offset_col) w)
    ≤ eval population w + Z.of_nat (pattern_markers pattern).
Proof.
  rewrite !eval_population, !add_pattern_alive, !self_with_alive.
  cbn [alive_cells init self]. rewrite (right_id_L ∅ (∪)). split.
  - by rewrite size_pattern_cells.
  - rewrite size_union_alt, size_pattern_cells.
    assert (Hle : (size (alive_cells (self w)
                         ∖ pattern_cells pattern offset_row offset_col)
                   ≤ size (alive_cells (self w)))%nat)
      by (apply subseteq_size; set_solver).
    lia.
Qed.

(** X13: a pattern without alive marker, the empty pattern among them,
    leaves the state as it was. *)
Theorem add_pattern_no_marker (w : World) (pattern : list string)
    (offset_row offset_col : Z) :
  pattern_markers pattern = 0%nat →
  exec (add_pattern pattern offset_row offset_col) w = w.
Proof.
  intros Hm. rewrite add_pattern_alive.
  pose proof (size_pattern_cells pattern offset_row offset_col) as Hs.
  rewrite Hm in Hs. apply size_empty_inv, leibniz_equiv in Hs.
  rewrite Hs, (left_id_L ∅ (∪)). apply with_alive_same.
Qed.

Lemma add_pattern_no_marker_witness :
  let w := exec (add_cell 1 1) (init 10 10 (λ _, NaN)) in
  pattern_markers ["..."; ""; " o0"]%string = 0%nat
  ∧ exec (add_pattern ["..."; ""; " o0"]%string 1 0) w = w
  ∧ exec (add_pattern [] 1 0) w = w.
Proof.
  cbn zeta.
  assert (H : pattern_markers ["..."; ""; " o0"]%string = 0%nat)
    by reflexivity.
  split; [exact H|]. split.
  - exact (add_pattern_no_marker _ _ 1 0 H).
  - exact (add_pattern_no_marker _ [] 1 0 eq_refl).
Defined.

(** ** The random fill, cell by cell *)

Lemma fill_cell_run (density : pyfloat) (row col : Z) (w : World) :
  exec (fill_cell density row col) w
  = mkWorld (self (if float_lt (rand w 0%nat) density
                   then with_alive ({[ (row, col) ]} ∪ alive_cells (self w)) w
                   else w))
            (λ k, rand w (S k)).
Proof.
  unfold fill_cell, exec, bind.
  change ((random_random w).1) with (rand w 0%nat).
  by destruct (float_lt _ _).
Qed.

(** The inner loop of [randomize] over the columns [cols]. *)
Lemma fill_row_spec (density : pyfloat) (row : Z) (cols : list Z) :
  ∀ w : World,
    let w' := exec (for_each cols (fill_cell density row)) w in
    width (self w') = width (self w)
    ∧ height (self w') = height (self w)
    ∧ generation (self w') = generation (self w)
    ∧ (∀ k, rand w' k = rand w (length cols + k)%nat)
    ∧ ∀ c, c ∈ alive_cells (self w') ↔
           c ∈ alive_cells (self w)
           ∨ ∃ (i : nat) (col : Z),
               cols !! i = Some col ∧ c = (row, col)
               ∧ float_lt (rand w i) density = true.
Proof.
  induction cols as [|x cols IH]; intros w; cbn zeta.
  - split_and!; try reflexivity. intros c. split; [by left|].
    intros [H|(i & col & Hi & _)]; [done|by rewrite lookup_nil in Hi].
  - change (exec (for_each (x :: cols) (fill_cell density row)) w)
      with (exec (for_each cols (fill_cell density row))
                 (exec (fill_cell density row x) w)).
    rewrite fill_cell_run.
    destruct (IH (mkWorld
        (self (if float_lt (rand w 0%nat) density
               then with_alive ({[ (row, x) ]} ∪ alive_cells (self w)) w
               else w))
        (λ k, rand w (S k)))) as (Hw & Hh & Hg & Hr & Ha).
    cbn [self rand] in Hw, Hh, Hg, Hr, Ha.
    split_and!.
    + rewrite Hw. by destruct (float_lt _ _).
    + rewrite Hh. by destruct (float_lt _ _).
    + rewrite Hg. by destruct (float_lt _ _).
    + intros k. rewrite Hr. f_equal.
    + intros c. rewrite Ha. clear Hw Hh Hg Hr Ha. split.
      * intros [Hc|(i & col & Hi & -> & Hlt)].
        -- destruct (float_lt (rand w 0%nat) density) eqn:Hb; [|by left].
           rewrite self_with_alive in Hc. cbn [alive_cells] in Hc.
           apply elem_of_union in Hc as [Hc|Hc]; [|by left].
           apply elem_of_singleton in Hc as ->. right. by exists 0%nat, x.
        -- right. by exists (S i), col.
      * intros [Hc|(i & col & Hi & -> & Hlt)].
        -- left. destruct (float_lt _ _); [|done].
           rewrite self_with_alive. cbn [alive_cells]. set_solver.
        -- destruct i as [|i].
           ++ left. injection Hi as ->. rewrite Hlt, self_with_alive.
              cbn [alive_cells]. set_solver.
           ++ right. by exists i, col.
Qed.

(** The outer loop of [randomize] over the rows [rows]. *)
Lemma fill_rows_spec (density : pyfloat) (rows : list Z) :
  ∀ w : World,
    let cols := range (width (self w)) in
    let w' := exec (for_each rows (fun row =>
                wd <- get_width ;;
                for_each (range wd) (fill_cell density row))) w in
    width (self w') = width (self w)
    ∧ height (self w') = height (self w)
    ∧ generation (self w') = generation (self w)
    ∧ (∀ k, rand w' k = rand w (length rows * length cols + k)%nat)
    ∧ ∀ c, c ∈ alive_cells (self w') ↔
           c ∈ alive_cells (self w)
           ∨ ∃ (j i : nat) (row col : Z),
               rows !! j = Some row ∧ cols !! i = Some col ∧ c = (row, col)
               ∧ float_lt (rand w (j * length cols + i)%nat) density = true.
Proof.
  induction rows as [|x rows IH]; intros w; cbn zeta.
  - split_and!; try reflexivity. intros c. split; [by left|].
    intros [H|(j & i & row & col & Hj & _)]; [done|by rewrite lookup_nil in Hj].
  - change (exec (for_each (x :: rows) _) w) with
      (exec (for_each rows (fun row =>
               wd <- get_width ;;
               for_each (range wd) (fill_cell density row)))
            (exec (for_each (range (width (self w))) (fill_cell density x)) w)).
    destruct (fill_row_spec density x (range (width (self w))) w)
      as (Hw1 & Hh1 & Hg1 & Hr1 & Ha1).
    destruct (IH (exec (for_each (range (width (self w)))
                                 (fill_cell density x)) w))
      as (Hw & Hh & Hg & Hr & Ha).
    rewrite Hw1 in Hw, Hr, Ha.
    set (cols := range (width (self w))) in *.
    split_and!; [congruence..| |].
    + intros k. rewrite Hr, Hr1. f_equal. cbn [length]. lia.
    + intros c. rewrite Ha, Ha1. clear Hw Hh Hg Hr Ha Hw1 Hh1 Hg1 Ha1. split.
      * intros [[Hc|(i & col & Hi & -> & Hlt)]
               |(j & i & row & col & Hj & Hi & -> & Hlt)].
        -- by left.
        -- right. by exists 0%nat, i, x, col.
        -- right. exists (S j), i, row, col. split_and!; try done.
           rewrite Hr1 in Hlt. rewrite <- Hlt. do 2 f_equal. lia.
      * intros [Hc|(j & i & row & col & Hj & Hi & -> & Hlt)]; [by left; left|].
        destruct j as [|j].
        -- left. right. injection Hj as ->. by exists i, col.
        -- right. exists j, i, row, col. split_and!; try done.
           rewrite Hr1. rewrite <- Hlt. do 2 f_equal. lia.
Qed.

Lemma lookup_range (n : Z) (i : nat) (x : Z) :
  range n !! i = Some x ↔ x = Z.of_nat i ∧ 0 ≤ x < n.
Proof.
  unfold range. rewrite list_lookup_fmap, fmap_Some. split.
  - intros (k & Hk & ->). apply lookup_seq in Hk as [-> Hlt]. lia.
  - intros [-> Hlt]. exists i. split; [|done]. apply lookup_seq. lia.
Qed.

Lemma to_nat_index (a b n : Z) :
  0 ≤ a → 0 ≤ b → 0 ≤ n →
  Z.to_nat (a * n + b) = (Z.to_nat a * Z.to_nat n + Z.to_nat b)%nat.
Proof.
  intros Ha Hb Hn. rewrite Z2Nat.inj_add by nia.
  by rewrite Z2Nat.inj_mul by lia.
Qed.

Lemma randomize_spec (w : World) (density : pyfloat) :
  let w' := exec (randomize density) w in
  let n := width (self w) in
  let m := height (self w) in
  (∀ row col : Z,
     (row, col) ∈ alive_cells (self w') ↔
     0 ≤ row < m ∧ 0 ≤ col < n
     ∧ float_lt (rand w (Z.to_nat (row * n + col))) density = true)
  ∧ (∀ k : nat,
       rand w' k = rand w (Z.to_nat (Z.max 0 n * Z.max 0 m) + k)%nat)
  ∧ width (self w') = n
  ∧ height (self w') = m.
Proof.
  cbn zeta. rewrite randomize_unfold.
  destruct (fill_rows_spec density (range (height (self w))) (exec clear w))
    as (Hw & Hh & _ & Hr & Ha).
  change (width (self (exec clear w))) with (width (self w)) in *.
  change (height (self (exec clear w))) with (height (self w)) in *.
  change (rand (exec clear w)) with (rand w) in *.
  rewrite !length_range in *.
  split_and!; [|intros k; rewrite Hr; f_equal; nia|exact Hw|exact Hh].
  intros row col. rewrite Ha. clear Ha Hr Hw Hh.
  change (alive_cells (self (exec clear w))) with (∅ : gset (Z * Z)). split.
  - intros [Hc|(j & i & r & c & Hj & Hi & [= -> ->] & Hlt)]; [set_solver|].
    apply lookup_range in Hj as [-> Hj]. apply lookup_range in Hi as [-> Hi].
    split_and!; try lia. rewrite <- Hlt. f_equal.
    rewrite to_nat_index, !Nat2Z.id by lia. reflexivity.
  - intros (Hrow & Hcol & Hlt). right.
    exists (Z.to_nat row), (Z.to_nat col), row, col. split_and!.
    + apply lookup_range. lia.
    + apply lookup_range. lia.
    + reflexivity.
    + rewrite <- Hlt. f_equal. rewrite to_nat_index by lia. reflexivity.
Qed.

(** X14: after [randomize(density)], the cell [(row, col)] is alive if and
    only if it is in the rectangle of the height and the width and the
    value number [row * width + col] of the generator is below the
    density; the generator has moved on by as many values as the rectangle
    has cells, and the cells alive before play no part. *)
Theorem randomize_cell_by_cell (w : World) (density : pyfloat) :
  let w' := exec (randomize density) w in
  let n := width (self w) in
  let m := height (self w) in
  (∀ row col : Z,
     (row, col) ∈ alive_cells (self w') ↔
     0 ≤ row < m ∧ 0 ≤ col < n
     ∧ float_lt (rand w (Z.to_nat (row * n + col))) density = true)
  ∧ (∀ k : nat,
       rand w' k = rand w (Z.to_nat (Z.max 0 n * Z.max 0 m) + k)%nat)
  ∧ width (self w') = n
  ∧ height (self w') = m.
Proof. apply randomize_spec. Qed.

Lemma elem_of_range (n x : Z) : x ∈ range n ↔ 0 ≤ x < n.
Proof.
  rewrite list_elem_of_lookup. split.
  - intros (i & Hi). by apply lookup_range in Hi as [_ ?].
  - intros Hx. exists (Z.to_nat x). apply lookup_range. lia.
Qed.

Lemma elem_of_grid (rows cols : list Z) (c : Z * Z) :
  c ∈ grid rows cols ↔ c.1 ∈ rows ∧ c.2 ∈ cols.
Proof.
  unfold grid. rewrite list_elem_of_bind. destruct c as [r k]. cbn [fst snd].
  split.
  - intros (row & Hc & Hrow). apply list_elem_of_fmap in Hc as (col & [= -> ->] & Hcol).
    done.
  - intros [Hr Hk]. exists r. split; [|done]. apply list_elem_of_fmap. by exists k.
Qed.

Lemma size_rectangle (n m : Z) :
  Z.of_nat (size (list_to_set (grid (range m) (range n)) : gset (Z * Z)))
  = Z.max 0 n * Z.max 0 m.
Proof.
  rewrite size_list_to_set by (apply NoDup_grid; apply NoDup_range).
  rewrite length_grid, !length_range, Nat2Z.inj_mul. lia.
Qed.

(** X15: whatever the density and the generator, the cells alive after
    [randomize] are in the rectangle of the height and the width, so the
    population is at most the number of its cells; with a NaN density no
    cell is alive. *)
Theorem randomize_within_rectangle (w : World) (density : pyfloat) :
  let w' := exec (randomize density) w in
  (∀ c : Z * Z, c ∈ alive_cells (self w') →
     0 ≤ c.1 < height (self w) ∧ 0 ≤ c.2 < width (self w))
  ∧ eval population w' ≤ Z.max 0 (width (self w)) * Z.max 0 (height (self w))
  ∧ eval population (exec (randomize NaN) w) = 0.
Proof.
  cbn zeta. destruct (randomize_spec w density) as (Ha & _).
  destruct (randomize_spec w NaN) as (Hnan & _). cbn zeta in Ha, Hnan.
  split_and!.
  - intros [r k] Hc. apply Ha in Hc. cbn [fst snd]. tauto.
  - rewrite eval_population, <- size_rectangle.
    apply inj_le, subseteq_size. intros [r k] Hc. apply Ha in Hc.
    apply elem_of_list_to_set, elem_of_grid. cbn [fst snd].
    rewrite !elem_of_range. tauto.
  - rewrite eval_population.
    replace (alive_cells (self (exec (randomize NaN) w)))
      with (∅ : gset (Z * Z)); [reflexivity|].
    apply set_eq. intros [r k]. rewrite Hnan.
    assert (Hf : ∀ x, float_lt x NaN = false) by by intros [].
    rewrite Hf. set_solver.
Qed.

Lemma float_lt_at_most_zero (x density : pyfloat) :
  in_unit_interval x → at_most_zero density → float_lt x density = false.
Proof.
  destruct x as [q| | |], density as [d| | |]; cbn; try done.
  intros [H0 _] Hd. apply negb_false_iff, Qle_bool_iff.
  by apply Qle_trans with 0%Q.
Qed.

Lemma float_lt_at_least_one (x density : pyfloat) :
  in_unit_interval x → at_least_one density → float_lt x density = true.
Proof.
  destruct x as [q| | |], density as [d| | |]; cbn; try done.
  intros [_ H1] Hd. apply negb_true_iff, not_true_is_false. intros Hle.
  apply Qle_bool_iff in Hle. apply (Qlt_not_le _ _ H1).
  by apply Qle_trans with d.
Qed.

(** X16: when the generator returns values in [[0, 1)], a density at most
    0 (minus infinity included) leaves no cell alive, and a density at
    least 1 (plus infinity included) makes alive every cell of the
    rectangle of the height and the width. *)
Theorem randomize_out_of_range_density (w : World) (density : pyfloat) :
  unit_rand w →
  (at_most_zero density → eval population (exec (randomize density) w) = 0)
  ∧ (at_least_one density →
     (∀ row col : Z,
        (row, col) ∈ alive_cells (self (exec (randomize density) w)) ↔
        0 ≤ row < height (self w) ∧ 0 ≤ col < width (self w))
     ∧ eval population (exec (randomize density) w)
       = Z.max 0 (width (self w)) * Z.max 0 (height (self w))).
Proof.
  intros Hw. destruct (randomize_spec w density) as (Ha & _). cbn zeta in Ha.
  split; intros Hd.
  - rewrite eval_population.
    replace (alive_cells (self (exec (randomize density) w)))
      with (∅ : gset (Z * Z)); [reflexivity|].
    apply set_eq. intros [r k]. rewrite Ha.
    rewrite (float_lt_at_most_zero _ _ (Hw _) Hd). set_solver.
  - assert (Hfull : ∀ row col : Z,
      (row, col) ∈ alive_cells (self (exec (randomize density) w)) ↔
      0 ≤ row < height (self w) ∧ 0 ≤ col < width (self w)).
    { intros row col. rewrite Ha.
      rewrite (float_lt_at_least_one _ _ (Hw _) Hd). tauto. }
    split; [exact Hfull|].
    rewrite eval_population, <- size_rectangle. do 2 f_equal.
    apply set_eq. intros [r k]. rewrite Hfull.
    rewrite elem_of_list_to_set, elem_of_grid, !elem_of_range. done.
Qed.

Lemma randomize_out_of_range_density_witness :
  let w := init 4 3 (λ _, Finite (1 # 2)) in
  unit_rand w
  ∧ eval population (exec (randomize (Finite (-3))) w) = 0
  ∧ eval population (exec (randomize PosInf) w) = 4 * 3.
Proof.
  cbn zeta.
  assert (Hw : unit_rand (init 4 3 (λ _, Finite (1 # 2)))).
  { intros k. split; [unfold Qle|unfold Qlt]; cbn; lia. }
  split; [exact Hw|]. split.
  - apply (proj1 (randomize_out_of_range_density _ (Finite (-3)) Hw)).
    unfold at_most_zero, Qle. cbn. lia.
  - apply (proj2 (randomize_out_of_range_density _ PosInf Hw)). exact I.
Defined.

(** ** The array of the alive cells *)

Lemma foldl_min_spec (l : list Z) (x : Z) :
  (foldl Z.min x l = x ∨ foldl Z.min x l ∈ l)
  ∧ foldl Z.min x l ≤ x ∧ ∀ y, y ∈ l → foldl Z.min x l ≤ y.
Proof.
  revert x. induction l as [|a l IH]; intros x; cbn [foldl].
  - split_and!; [by left|lia|]. intros y Hy. by apply elem_of_nil in Hy.
  - destruct (IH (Z.min x a)) as (Hin & Hle & Hall). split_and!.
    + destruct Hin as [Heq|Hin]; [|right; by right].
      rewrite Heq. destruct (Z.min_spec x a) as [[_ ->]|[_ ->]];
        [by left|right; by left].
    + lia.
    + intros y [->|Hy]%elem_of_cons; [lia|by apply Hall].
Qed.

Lemma foldl_max_spec (l : list Z) (x : Z) :
  (foldl Z.max x l = x ∨ foldl Z.max x l ∈ l)
  ∧ x ≤ foldl Z.max x l ∧ ∀ y, y ∈ l → y ≤ foldl Z.max x l.
Proof.
  revert x. induction l as [|a l IH]; intros x; cbn [foldl].
  - split_and!; [by left|lia|]. intros y Hy. by apply elem_of_nil in Hy.
  - destruct (IH (Z.max x a)) as (Hin & Hle & Hall). split_and!.
    + destruct Hin as [Heq|Hin]; [|right; by right].
      rewrite Heq. destruct (Z.max_spec x a) as [[_ ->]|[_ ->]];
        [right; by left|by left].
    + lia.
    + intros y [->|Hy]%elem_of_cons; [lia|by apply Hall].
Qed.

Lemma py_min_spec (l : list Z) :
  l ≠ [] → ∃ m, py_min l = Returns m ∧ m ∈ l ∧ ∀ y, y ∈ l → m ≤ y.
Proof.
  destruct l as [|x l]; [done|]. intros _. eexists. split; [reflexivity|].
  destruct (foldl_min_spec l x) as (Hin & Hle & Hall). split.
  - destruct Hin as [->|Hin]; [by left|by right].
  - intros y [->|Hy]%elem_of_cons; [done|by apply Hall].
Qed.

Lemma py_max_spec (l : list Z) :
  l ≠ [] → ∃ m, py_max l = Returns m ∧ m ∈ l ∧ ∀ y, y ∈ l → y ≤ m.
Proof.
  destruct l as [|x l]; [done|]. intros _. eexists. split; [reflexivity|].
  destruct (foldl_max_spec l x) as (Hin & Hle & Hall). split.
  - destruct Hin as [->|Hin]; [by left|by right].
  - intros y [->|Hy]%elem_of_cons; [done|by apply Hall].
Qed.

Lemma np_zeros_spec (h w : Z) :
  0 ≤ h → 0 ≤ w → np_checked_size h w ≤ np_max_size →
  ∃ arr, np_zeros h w = Returns arr ∧ well_shaped arr h w
         ∧ ∀ i j : nat, (i < Z.to_nat h)%nat → (j < Z.to_nat w)%nat →
                        entry arr i j = Some (Finite 0).
Proof.
  intros Hh Hw Hsize. unfold np_zeros.
  replace ((h <? 0) || (w <? 0)) with false by lia.
  replace (np_max_size <? np_checked_size h w) with false by lia.
  eexists. split; [reflexivity|]. split.
  - unfold well_shaped. cbn [shape data]. split_and!; try done.
    + apply length_replicate.
    + apply Forall_replicate, length_replicate.
  - intros i j Hi Hj. unfold entry. cbn [data].
    rewrite lookup_replicate_2 by done. cbn. by apply lookup_replicate_2.
Qed.

Lemma np_index_in_range (n i : Z) :
  0 ≤ i < n → np_index n i = Returns (Z.to_nat i).
Proof.
  intros Hi. unfold np_index.
  replace (i <? 0) with false by lia.
  by replace ((i <? 0) || (n <=? i)) with false by lia.
Qed.

Lemma np_setitem_spec (arr : ndarray) (h w i j : Z) (v : pyfloat) :
  well_shaped arr h w → 0 ≤ i < h → 0 ≤ j < w →
  ∃ arr', np_setitem arr i j v = Returns arr' ∧ well_shaped arr' h w
          ∧ ∀ a b : nat, (a < Z.to_nat h)%nat → (b < Z.to_nat w)%nat →
              entry arr' a b
              = if bool_decide (a = Z.to_nat i ∧ b = Z.to_nat j)
                then Some v else entry arr a b.
Proof.
  intros (Hs & Hh & Hw & Hlen & Hrows) Hi Hj. unfold np_setitem.
  rewrite Hs. cbn [fst snd]. rewrite !np_index_in_range by done.
  cbn [outcome_bind]. eexists. split; [reflexivity|]. split.
  - unfold well_shaped. cbn [shape data]. split_and!; try done.
    + by rewrite length_alter.
    + apply Forall_alter; [done|]. intros row _ ?. by rewrite length_insert.
  - intros a b Ha Hb. unfold entry. cbn [data].
    destruct (decide (a = Z.to_nat i)) as [->|Hne].
    + rewrite list_lookup_alter_eq.
      destruct (data arr !! Z.to_nat i) as [row|] eqn:Hrow; cbn.
      * assert (length row = Z.to_nat w) as Hrl.
        { eapply Forall_forall in Hrows; [exact Hrows|].
          by eapply list_elem_of_lookup_2. }
        destruct (decide (b = Z.to_nat j)) as [->|Hnb].
        -- rewrite bool_decide_eq_true_2 by done.
           apply list_lookup_insert_eq. lia.
        -- rewrite bool_decide_eq_false_2 by tauto.
           by apply list_lookup_insert_ne.
      * apply lookup_ge_None in Hrow. lia.
    + rewrite bool_decide_eq_false_2 by tauto.
      by rewrite list_lookup_alter_ne.
Qed.

(** The loop of [game_to_array], for cells that fall inside the array. *)
Lemma fill_array_spec (min_r min_c padding h w : Z) (cells : list (Z * Z)) :
  ∀ arr : ndarray,
    well_shaped arr h w →
    (∀ c, c ∈ cells →
          0 ≤ c.1 - min_r + padding < h ∧ 0 ≤ c.2 - min_c + padding < w) →
    ∃ arr',
      for_raising cells
        (fun arr cell =>
           np_setitem arr (cell.1 - min_r + padding)
                      (cell.2 - min_c + padding) (Finite 1)) arr
      = Returns arr'
      ∧ well_shaped arr' h w
      ∧ ∀ a b : nat, (a < Z.to_nat h)%nat → (b < Z.to_nat w)%nat →
          entry arr' a b
          = if bool_decide ((Z.of_nat a + min_r - padding,
                             Z.of_nat b + min_c - padding) ∈ cells)
            then Some (Finite 1) else entry arr a b.
Proof.
  induction cells as [|c cells IH]; intros arr Hwf Hin.
  - exists arr. split_and!; [reflexivity|done|]. intros a b _ _.
    rewrite bool_decide_eq_false_2; [done|]. apply not_elem_of_nil.
  - destruct (Hin c) as [Hr Hc]; [by left|].
    destruct (np_setitem_spec arr h w _ _ (Finite 1) Hwf Hr Hc)
      as (arr1 & Hset & Hwf1 & Hent1).
    destruct (IH arr1 Hwf1) as (arr' & Hrun & Hwf' & Hent').
    { intros c' Hc'. apply Hin. by right. }
    exists arr'. split_and!; [|done|].
    + cbn [for_raising]. by rewrite Hset.
    + intros a b Ha Hb. rewrite Hent', Hent1 by done.
      destruct c as [cr cc]. cbn [fst snd] in *.
      set (target := (Z.of_nat a + min_r - padding,
                      Z.of_nat b + min_c - padding)).
      destruct (decide (target ∈ cells)) as [Hq|Hq].
      { assert (Hp : target ∈ (cr, cc) :: cells) by by right.
        by rewrite (bool_decide_eq_true_2 _ Hq), (bool_decide_eq_true_2 _ Hp). }
      rewrite (bool_decide_eq_false_2 _ Hq).
      destruct (decide (a = Z.to_nat (cr - min_r + padding)
                        ∧ b = Z.to_nat (cc - min_c + padding))) as [Hab|Hab].
      * assert (Hp : target ∈ (cr, cc) :: cells).
        { apply elem_of_cons. left. unfold target.
          destruct Hab as [-> ->]. f_equal; lia. }
        by rewrite (bool_decide_eq_true_2 _ Hab), (bool_decide_eq_true_2 _ Hp).
      * assert (Hp : target ∉ (cr, cc) :: cells).
        { intros [[= Ht1 Ht2]|?]%elem_of_cons; [|done]. apply Hab. lia. }
        by rewrite (bool_decide_eq_false_2 _ Hab), (bool_decide_eq_false_2 _ Hp).
Qed.

Lemma elements_nonempty (s : gset (Z * Z)) : s ≠ ∅ → elements s ≠ [].
Proof. intros Hs He. apply Hs. by apply elements_empty_inv, leibniz_equiv in He. Qed.

(** The four extrema that [game_to_array] computes. *)
Lemma game_to_array_extrema (s : gset (Z * Z)) :
  s ≠ ∅ →
  ∃ min_r max_r min_c max_c : Z,
    py_min (fst <$> elements s) = Returns min_r
    ∧ py_max (fst <$> elements s) = Returns max_r
    ∧ py_min (snd <$> elements s) = Returns min_c
    ∧ py_max (snd <$> elements s) = Returns max_c
    ∧ bounding_box s min_r max_r min_c max_c.
Proof.
  intros Hs. apply elements_nonempty in Hs.
  assert (Hrows : fst <$> elements s ≠ []) by by destruct (elements s).
  assert (Hcols : snd <$> elements s ≠ []) by by destruct (elements s).
  destruct (py_min_spec _ Hrows) as (min_r & Hmin_r & Hin1 & Hle1).
  destruct (py_max_spec _ Hrows) as (max_r & Hmax_r & Hin2 & Hle2).
  destruct (py_min_spec _ Hcols) as (min_c & Hmin_c & Hin3 & Hle3).
  destruct (py_max_spec _ Hcols) as (max_c & Hmax_c & Hin4 & Hle4).
  exists min_r, max_r, min_c, max_c. unfold bounding_box.
  split_and!; try done.
  - intros c Hc. apply elem_of_elements in Hc.
    pose proof (Hle1 c.1 (list_elem_of_fmap_2 fst _ _ Hc)).
    pose proof (Hle2 c.1 (list_elem_of_fmap_2 fst _ _ Hc)).
    pose proof (Hle3 c.2 (list_elem_of_fmap_2 snd _ _ Hc)).
    pose proof (Hle4 c.2 (list_elem_of_fmap_2 snd _ _ Hc)). lia.
  - apply list_elem_of_fmap in Hin1 as (c & -> & Hc). exists c.
    by rewrite <- elem_of_elements.
  - apply list_elem_of_fmap in Hin2 as (c & -> & Hc). exists c.
    by rewrite <- elem_of_elements.
  - apply list_elem_of_fmap in Hin3 as (c & -> & Hc). exists c.
    by rewrite <- elem_of_elements.
  - apply list_elem_of_fmap in Hin4 as (c & -> & Hc). exists c.
    by rewrite <- elem_of_elements.
Qed.

Lemma bounding_box_unique (s : gset (Z * Z))
    (min_r max_r min_c max_c min_r' max_r' min_c' max_c' : Z) :
  bounding_box s min_r max_r min_c max_c →
  bounding_box s min_r' max_r' min_c' max_c' →
  min_r = min_r' ∧ max_r = max_r' ∧ min_c = min_c' ∧ max_c = max_c'.
Proof.
  intros (Hall & (c1 & Hc1 & <-) & (c2 & Hc2 & <-)
          & (c3 & Hc3 & <-) & (c4 & Hc4 & <-)).
  intros (Hall' & (d1 & Hd1 & <-) & (d2 & Hd2 & <-)
          & (d3 & Hd3 & <-) & (d4 & Hd4 & <-)).
  pose proof (Hall _ Hd1). pose proof (Hall _ Hd2).
  pose proof (Hall _ Hd3). pose proof (Hall _ Hd4).
  pose proof (Hall' _ Hc1). pose proof (Hall' _ Hc2).
  pose proof (Hall' _ Hc3). pose proof (Hall' _ Hc4). lia.
Qed.

Lemma bounding_box_nonempty (s : gset (Z * Z)) (min_r max_r min_c max_c : Z) :
  bounding_box s min_r max_r min_c max_c → s ≠ ∅.
Proof. intros (_ & (c & Hc & _) & _) ->. set_solver. Qed.

(** [game_to_array] up to the loop, for the bounding box of the alive
    cells. *)
Lemma game_to_array_unfold (game : GameOfLife)
    (padding min_r max_r min_c max_c : Z) :
  bounding_box (alive_cells game) min_r max_r min_c max_c →
  game_to_array game padding
  = outcome_bind
      (np_zeros (max_r - min_r + 1 + 2 * padding)
                (max_c - min_c + 1 + 2 * padding))
      (for_raising (elements (alive_cells game))
         (fun arr cell =>
            np_setitem arr (cell.1 - min_r + padding)
                       (cell.2 - min_c + padding) (Finite 1))).
Proof.
  intros Hbox. pose proof (bounding_box_nonempty _ _ _ _ _ Hbox) as Hs.
  destruct (game_to_array_extrema _ Hs)
    as (a & b & c & d & H1 & H2 & H3 & H4 & Hbox').
  destruct (bounding_box_unique _ _ _ _ _ _ _ _ _ Hbox Hbox')
    as (-> & -> & -> & ->).
  unfold game_to_array. rewrite bool_decide_eq_false_2 by done.
  cbn zeta. by rewrite H1, H2, H3, H4.
Qed.

(** X17: let rows [min_r .. max_r] and columns [min_c .. max_c] be the
    bounding box of the alive cells, let the padding be not negative, and
    let [height] and [width] be the sides of the box plus twice the
    padding.  An array that [game_to_array] returns has the shape
    [(height, width)] and its entry at [(i, j)] is 1.0 if the cell
    [(i + min_r - padding, j + min_c - padding)] is alive and 0.0 if it is
    not.  When the array is within the size limit of NumPy, and the machine
    has the memory for it, [game_to_array] returns; when it is past the
    limit, [game_to_array] raises [ValueError]. *)
Theorem game_to_array_spec (game : GameOfLife)
    (padding min_r max_r min_c max_c : Z) :
  0 ≤ padding →
  bounding_box (alive_cells game) min_r max_r min_c max_c →
  let height := max_r - min_r + 1 + 2 * padding in
  let width := max_c - min_c + 1 + 2 * padding in
  (∀ arr : ndarray,
     game_to_array game padding = Returns arr →
     shape arr = (height, width)
     ∧ ∀ i j : Z,
         0 ≤ i < height → 0 ≤ j < width →
         entry arr (Z.to_nat i) (Z.to_nat j)
         = Some (if bool_decide ((i + min_r - padding, j + min_c - padding)
                                 ∈ alive_cells game)
                 then Finite 1 else Finite 0))
  ∧ (8 * height * width ≤ np_max_size →
     ∃ arr : ndarray, game_to_array game padding = Returns arr)
  ∧ (np_max_size < 8 * height * width →
     game_to_array game padding = Raises ValueError).
Proof.
  intros Hp Hbox. cbn zeta.
  rewrite (game_to_array_unfold _ padding _ _ _ _ Hbox).
  pose proof Hbox as (Hall & (c1 & Hc1 & <-) & (c2 & Hc2 & <-)
                      & (c3 & Hc3 & <-) & (c4 & Hc4 & <-)).
  pose proof (Hall _ Hc1). pose proof (Hall _ Hc2).
  pose proof (Hall _ Hc3). pose proof (Hall _ Hc4).
  set (h := c2.1 - c1.1 + 1 + 2 * padding) in *.
  set (w := c4.2 - c3.2 + 1 + 2 * padding) in *.
  assert (Hh : 1 ≤ h) by (unfold h; lia).
  assert (Hw : 1 ≤ w) by (unfold w; lia).
  assert (Hsize : np_checked_size h w = 8 * h * w).
  { unfold np_checked_size. by rewrite !Z.max_l by lia. }
  destruct (decide (8 * h * w ≤ np_max_size)) as [Hfit|Hbig].
  - destruct (np_zeros_spec h w) as (arr0 & Hz & Hwf0 & Hent0); [lia..|].
    destruct (fill_array_spec c1.1 c3.2 padding h w
                (elements (alive_cells game)) arr0 Hwf0)
      as (arr & Hrun & Hwf & Hent).
    { intros c Hc. apply elem_of_elements, Hall in Hc. unfold h, w. lia. }
    rewrite Hz. cbn [outcome_bind]. rewrite Hrun. split_and!.
    + intros arr' [= <-]. split; [by destruct Hwf as (-> & _)|].
      intros i j Hi Hj. rewrite Hent by lia. rewrite !Z2Nat.id by lia.
      rewrite Hent0 by lia.
      rewrite (bool_decide_ext _ _ (elem_of_elements (alive_cells game) _)).
      by destruct (bool_decide _).
    + intros _. by exists arr.
    + lia.
  - assert (Hz : np_zeros h w = Raises ValueError).
    { unfold np_zeros. replace ((h <? 0) || (w <? 0)) with false by lia.
      by replace (np_max_size <? np_checked_size h w) with true by lia. }
    rewrite Hz. cbn [outcome_bind]. split_and!; [done|lia|done].
Qed.

Lemma np_setitem_shape (arr arr' : ndarray) (i j : Z) (v : pyfloat) :
  np_setitem arr i j v = Returns arr' → shape arr' = shape arr.
Proof.
  unfold np_setitem. destruct (np_index _ i); [|done].
  destruct (np_index _ j); [|done]. cbn. by intros [= <-].
Qed.

Lemma for_raising_raises (min_r min_c padding h w : Z) (cells : list (Z * Z)) :
  ∀ arr : ndarray,
    shape arr = (h, w) →
    (∃ c, c ∈ cells ∧ np_index h (c.1 - min_r + padding) = Raises IndexError) →
    ∃ e,
      for_raising cells
        (fun arr cell =>
           np_setitem arr (cell.1 - min_r + padding)
                      (cell.2 - min_c + padding) (Finite 1)) arr
      = Raises e.
Proof.
  induction cells as [|x cells IH]; intros arr Hshape (c & Hc & Hidx).
  - by apply elem_of_nil in Hc.
  - cbn [for_raising].
    destruct (np_setitem arr (x.1 - min_r + padding) (x.2 - min_c + padding)
                         (Finite 1)) as [arr1|e] eqn:Hset;
      [|by exists e].
    cbn [outcome_bind]. apply IH.
    + apply np_setitem_shape in Hset. congruence.
    + exists c. split; [|done]. apply elem_of_cons in Hc as [->|Hc]; [|done].
      exfalso. unfold np_setitem in Hset. rewrite Hshape in Hset.
      cbn [fst] in Hset. by rewrite Hidx in Hset.
Qed.

(** X18: for an engine without alive cell, [game_to_array] returns the
    10 by 10 array of zeros, whatever the padding; for an engine with alive
    cells and a negative padding, it raises an exception. *)
Theorem game_to_array_edge_cases (game : GameOfLife) (padding : Z) :
  (alive_cells game = ∅ →
   game_to_array game padding
   = Returns (mk_ndarray (10, 10)
                (replicate 10 (replicate 10 (Finite 0)))))
  ∧ (alive_cells game ≠ ∅ → padding < 0 →
     ∃ e, game_to_array game padding = Raises e).
Proof.
  split.
  - intros Hs. unfold game_to_array. by rewrite bool_decide_eq_true_2.
  - intros Hs Hp.
    destruct (game_to_array_extrema _ Hs)
      as (min_r & max_r & min_c & max_c & H1 & H2 & H3 & H4 & Hbox).
    destruct Hbox as (Hall & (c1 & Hc1 & <-) & (c2 & Hc2 & <-)
                      & (c3 & Hc3 & <-) & (c4 & Hc4 & <-)).
    pose proof (Hall _ Hc1). pose proof (Hall _ Hc2).
    unfold game_to_array. rewrite bool_decide_eq_false_2 by done.
    cbn zeta. rewrite H1, H2, H3, H4. cbn [outcome_bind].
    set (h := c2.1 - c1.1 + 1 + 2 * padding).
    set (w := c4.2 - c3.2 + 1 + 2 * padding).
    unfold np_zeros. destruct ((h <? 0) || (w <? 0)) eqn:Hneg;
      [by exists ValueError|].
    destruct (np_max_size <? np_checked_size h w); [by exists ValueError|].
    cbn [outcome_bind]. apply (for_raising_raises _ _ _ h w); [reflexivity|].
    exists c2. split; [by apply elem_of_elements|].
    unfold np_index.
    replace (c2.1 - c1.1 + padding <? 0) with false by (unfold h in *; lia).
    by replace ((c2.1 - c1.1 + padding <? 0) || (h <=? c2.1 - c1.1 + padding))
      with true by (unfold h in *; lia).
Qed.

(** Two cells in the corners of a 2 by 3 box, with a padding of 1. *)
Example game_to_array_two_cells :
  game_to_array (mkGameOfLife 10 10 {[ (5, 5); (6, 7) ]} 0) 1
  = Returns (mk_ndarray (4, 5)
      [ [Finite 0; Finite 0; Finite 0; Finite 0; Finite 0];
        [Finite 0; Finite 1; Finite 0; Finite 0; Finite 0];
        [Finite 0; Finite 0; Finite 0; Finite 1; Finite 0];
        [Finite 0; Finite 0; Finite 0; Finite 0; Finite 0] ]).
Proof. by vm_compute. Qed.

Lemma game_to_array_spec_witness :
  let game := mkGameOfLife 10 10 {[ (5, 5); (6, 7) ]} 0 in
  0 ≤ 1 ∧ bounding_box (alive_cells game) 5 6 5 7
  ∧ (∃ arr : ndarray, game_to_array game 1 = Returns arr)
  ∧ game_to_array (mkGameOfLife 10 10 {[ (0, 0); (2 ^ 63, 0) ]} 0) 0
    = Raises ValueError.
Proof.
  cbn zeta.
  assert (H0 : 0 ≤ 1) by lia.
  assert (Hbox : bounding_box (alive_cells
            (mkGameOfLife 10 10 {[ (5, 5); (6, 7) ]} 0)) 5 6 5 7).
  { cbn [alive_cells]. unfold bounding_box. split_and!.
    - intros [r k]. rewrite elem_of_union, !elem_of_singleton, !pair_eq_iff.
      cbn [fst snd]. lia.
    - exists (5, 5). split; [set_solver|reflexivity].
    - exists (6, 7). split; [set_solver|reflexivity].
    - exists (5, 5). split; [set_solver|reflexivity].
    - exists (6, 7). split; [set_solver|reflexivity]. }
  assert (Hbig : bounding_box (alive_cells
            (mkGameOfLife 10 10 {[ (0, 0); (2 ^ 63, 0) ]} 0)) 0 (2 ^ 63) 0 0).
  { cbn [alive_cells]. unfold bounding_box. split_and!.
    - intros [r k]. rewrite elem_of_union, !elem_of_singleton, !pair_eq_iff.
      cbn [fst snd]. lia.
    - exists (0, 0). split; [set_solver|reflexivity].
    - exists (2 ^ 63, 0). split; [set_solver|reflexivity].
    - exists (0, 0). split; [set_solver|reflexivity].
    - exists (0, 0). split; [set_solver|reflexivity]. }
  split; [exact H0|]. split; [exact Hbox|]. split.
  - apply (proj1 (proj2 (game_to_array_spec _ 1 5 6 5 7 H0 Hbox))).
    by vm_compute.
  - apply (proj2 (proj2 (game_to_array_spec _ 0 0 (2 ^ 63) 0 0
                           ltac:(lia) Hbig))).
    by vm_compute.
Defined.

Lemma game_to_array_edge_cases_witness :
  game_to_array (mkGameOfLife 10 10 ∅ 3) (-4)
  = Returns (mk_ndarray (10, 10) (replicate 10 (replicate 10 (Finite 0))))
  ∧ ∃ e, game_to_array (mkGameOfLife 10 10 {[ (0, 0); (3, 3) ]} 0) (-1)
         = Raises e.
Proof.
  split.
  - exact (proj1 (game_to_array_edge_cases (mkGameOfLife 10 10 ∅ 3) (-4))
                 eq_refl).
  - apply (proj2 (game_to_array_edge_cases
                    (mkGameOfLife 10 10 {[ (0, 0); (3, 3) ]} 0) (-1))).
    + apply (bool_decide_unpack _). by vm_compute.
    + lia.
Defined.

(** ** Centring a pattern *)

Lemma length_list_ascii_of_string (s : string) :
  length (list_ascii_of_string s) = String.length s.
Proof. induction s as [|a s IH]; [reflexivity|]. cbn. by rewrite IH. Qed.

Lemma pattern_width_ge (pattern : list string) (line : string) :
  line ∈ pattern → Z.of_nat (String.length line) ≤ pattern_width pattern.
Proof.
  destruct pattern as [|row rest]; [by intros ?%elem_of_nil|].
  cbn [pattern_width].
  destruct (foldl_max_spec ((λ row, Z.of_nat (String.length row)) <$> rest)
              (Z.of_nat (String.length row))) as (_ & Hle & Hall).
  intros [->|Hin]%elem_of_cons; [exact Hle|].
  apply Hall, list_elem_of_fmap. by exists line.
Qed.

Lemma pattern_width_attained (pattern : list string) :
  pattern ≠ [] →
  ∃ line, line ∈ pattern ∧ Z.of_nat (String.length line) = pattern_width pattern.
Proof.
  destruct pattern as [|row rest]; [done|]. intros _. cbn [pattern_width].
  destruct (foldl_max_spec ((λ row, Z.of_nat (String.length row)) <$> rest)
              (Z.of_nat (String.length row))) as ([Heq|Hin] & _ & _).
  - exists row. split; [by left|done].
  - apply list_elem_of_fmap in Hin as (line & Heq & Hline).
    exists line. split; [by right|done].
Qed.

(** X19: in the pattern branch of [main], with [top] and [left] the
    halves, rounded down and not below 0, of the height and the width that
    the grid has more than the pattern, the cells made alive are the cells
    [(top + i, left + j)] for the alive markers at row [i] and column [j]
    of the pattern, the width of the pattern being the length of its
    longest row.  When the pattern is not taller and not wider than the
    grid, these cells are inside the grid, and the [top] rows above the
    pattern are as many as the rows below it or one less, likewise for the
    columns; when the pattern is taller, [top] is 0, and when it is wider,
    [left] is 0. *)
Theorem main_pattern_centred (args_width args_height : Z)
    (pattern : list string) (r : nat -> pyfloat) :
  let w' := exec (main_pattern args_width args_height pattern)
                 (init args_width args_height r) in
  let ph := Z.of_nat (length pattern) in
  let pw := pattern_width pattern in
  let top := Z.max 0 ((args_height - ph) / 2) in
  let left := Z.max 0 ((args_width - pw) / 2) in
  (∀ c : Z * Z,
     c ∈ alive_cells (self w') ↔
     ∃ (i j : nat) (line : string) (char : ascii),
       pattern !! i = Some line
       ∧ list_ascii_of_string line !! j = Some char
       ∧ (char = "O"%char ∨ char = "#"%char ∨ char = "*"%char)
       ∧ c = (top + Z.of_nat i, left + Z.of_nat j))
  ∧ (∀ line, line ∈ pattern → Z.of_nat (String.length line) ≤ pw)
  ∧ (pattern ≠ [] →
     ∃ line, line ∈ pattern ∧ Z.of_nat (String.length line) = pw)
  ∧ (ph ≤ args_height → pw ≤ args_width →
     (∀ c : Z * Z, c ∈ alive_cells (self w') →
        0 ≤ c.1 < args_height ∧ 0 ≤ c.2 < args_width)
     ∧ top ≤ args_height - (top + ph) ≤ top + 1
     ∧ left ≤ args_width - (left + pw) ≤ left + 1)
  ∧ (args_height < ph → top = 0)
  ∧ (args_width < pw → left = 0).
Proof.
  cbn zeta.
  assert (Hcells : ∀ c : Z * Z,
    c ∈ alive_cells (self (exec (main_pattern args_width args_height pattern)
                                (init args_width args_height r))) ↔
    ∃ (i j : nat) (line : string) (char : ascii),
      pattern !! i = Some line
      ∧ list_ascii_of_string line !! j = Some char
      ∧ (char = "O"%char ∨ char = "#"%char ∨ char = "*"%char)
      ∧ c = (Z.max 0 ((args_height - Z.of_nat (length pattern)) / 2)
             + Z.of_nat i,
             Z.max 0 ((args_width - pattern_width pattern) / 2)
             + Z.of_nat j)).
  { intros c. unfold main_pattern, center_offset, pattern_height.
    rewrite add_pattern_alive, self_with_alive.
    cbn [alive_cells init self]. rewrite (right_id_L ∅ (∪)).
    rewrite elem_of_pattern_cells. setoid_rewrite is_alive_marker_spec.
    split; intros (i & j & line & char & Hi & Hj & Hm & ->);
      exists i, j, line, char; split_and!; try done; f_equal; lia. }
  split_and!.
  - exact Hcells.
  - apply pattern_width_ge.
  - apply pattern_width_attained.
  - intros Hh Hw. split_and!; try (Z.div_mod_to_equations; lia).
    intros c (i & j & line & char & Hi & Hj & _ & ->)%Hcells. cbn [fst snd].
    pose proof (lookup_lt_Some _ _ _ Hi) as Hi'.
    pose proof (lookup_lt_Some _ _ _ Hj) as Hj'.
    rewrite length_list_ascii_of_string in Hj'.
    pose proof (pattern_width_ge pattern line
                  (list_elem_of_lookup_2 _ _ _ Hi)) as Hlen.
    Z.div_mod_to_equations. lia.
  - intros Hh. Z.div_mod_to_equations. lia.
  - intros Hw. Z.div_mod_to_equations. lia.
Qed.

Lemma main_pattern_centred_witness :
  let w' := exec (main_pattern 70 30 glider) (init 70 30 (λ _, NaN)) in
  Z.of_nat (length glider) ≤ 30 ∧ pattern_width glider ≤ 70
  ∧ (13, 34) ∈ alive_cells (self w')
  ∧ (∀ c : Z * Z, c ∈ alive_cells (self w') → 0 ≤ c.1 < 30 ∧ 0 ≤ c.2 < 70)
  ∧ Z.max 0 ((2 - Z.of_nat (length glider)) / 2) = 0.
Proof.
  cbn zeta.
  assert (Hh : Z.of_nat (length glider) ≤ 30) by (by vm_compute).
  assert (Hw : pattern_width glider ≤ 70) by (by vm_compute).
  split; [exact Hh|]. split; [exact Hw|].
  destruct (main_pattern_centred 70 30 glider (λ _, NaN))
    as (Hcells & _ & _ & Hfit & _).
  split; [|split].
  - apply Hcells. exists 0%nat, 1%nat, ".O."%string, "O"%char.
    split_and!; [reflexivity|reflexivity|by left|by vm_compute].
  - exact (proj1 (Hfit Hh Hw)).
  - apply (proj1 (proj2 (proj2 (proj2 (proj2
             (main_pattern_centred 70 2 glider (λ _, NaN))))))).
    by vm_compute.
Defined.
